(** * Formation layout and state synchronisation of the lineup overlay

    A shallow embedding of the layout calculator, the override store, the
    combined-vertical mode transform, the drag controller, the match-feed
    reconciler and the score control of [src/src/App.tsx] and
    [src/src/components/ScoreDraggable.tsx].

    Numbers.  JavaScript numbers that hold coordinates are embedded as exact
    rationals [Q]: the arithmetic is the source's, without the rounding of
    each operation to a double.  Statements on [Q] are therefore inequalities
    with a margin, tolerances, or equalities between values that the doubles
    compute exactly.  Where a statement is about the rounding itself, the
    seat formula is embedded a second time in binary64 ([Doubles]) and
    evaluated.  Numbers that hold counts, indices and scores are embedded as
    [Z] or [nat], and the one place where the code can produce [NaN] for a
    count ([parseInt]) has an explicit [NaN] constructor.
    [Math.hypot(dx, dy) > t] is embedded as [dx*dx + dy*dy > t*t]. *)

From Stdlib Require Import QArith Qminmax Qround Qabs Lqa ZArith Lia Ascii.
From Stdlib Require PrimFloat.
From stdpp Require Import gmap strings list pretty.

Local Open Scope nat_scope.

(** ** Shared data model *)

(** A JavaScript number used as a count: an integer or [NaN]. *)
Inductive jsint : Type :=
  | NaN : jsint
  | Int : Z -> jsint.

(** [{ x: number; y: number }], in percent of the pitch. *)
Record Position : Type := mkPosition { px : Q; py : Q }.

(** [interface Formation { name: string; lines: number[] }]. *)
Record Formation : Type := mkFormation { name : string; lines : list jsint }.

(** A formation as the data model describes it: every line is a count. *)
Definition formationOf (nm : string) (ns : list nat) : Formation :=
  mkFormation nm (map (fun n => Int (Z.of_nat n)) ns).

(** [clamp01]: [Math.max(0, Math.min(100, v))]. *)
Definition clamp01 (v : Q) : Q := Qmax 0 (Qmin 100 v)%Q.

(** ** Layout calculator ([calcPositions]) *)

Module Layout.

(** The body of the [forEach] callback up to the seat loop: the [y] shared by
    the seats of line [lineIndex], for a formation of [len] lines.  The
    bindings before the [if] are the source's [rawY]/[computedY] computation,
    which both branches of the [if] then overwrite. *)
Definition yForLine (len lineIndex : nat) : Q :=
  (let totalLines := Z.max 1 (Z.of_nat len - 1)%Z in
   let rawY := (inject_Z (Z.of_nat lineIndex) / inject_Z totalLines) * 85 + 8 in
   let center := 50 in
   let computedY := center + (rawY - center) * 0.8 in
   let computedY := Qmax 0 (computedY - 3.5) in
   let yForLine := computedY in
   if Nat.eqb lineIndex 0%nat then 90
   else
     let totalLines := inject_Z (Z.of_nat len) in
     let topY := 10 in
     let bottomY := 90 in
     let spacing := (bottomY - topY) / (totalLines - 1) in
     bottomY - spacing * inject_Z (Z.of_nat lineIndex))%Q.

(** [x] of seat [i] in a line of [lineCount] seats, on exact rationals;
    [Doubles.seatX] is the same expression on doubles. *)
Definition seatX (lineCount i : Z) : Q :=
  (let baseX := (inject_Z (lineCount - i)%Z / inject_Z (lineCount + 1)%Z) * 100 in
   50 + (baseX - 50) * 1.2)%Q.

(** Number of iterations of [for (let i = 0; i < lineCount; i++)]. *)
Definition loopCount (lineCount : jsint) : nat :=
  match lineCount with
  | NaN => 0
  | Int n => Z.to_nat n
  end.

(** The seats pushed for one line. *)
Definition linePositions (len lineIndex : nat) (lineCount : jsint)
  : list Position :=
  match lineCount with
  | NaN => []
  | Int n =>
      map (fun i => mkPosition (seatX n (Z.of_nat i)) (yForLine len lineIndex))
          (seq 0 (Z.to_nat n))
  end.

(** [calcPositions]: the lines in order, each contributing its seats. *)
Definition calcPositions (formation : Formation) : list Position :=
  mjoin (imap (linePositions (length (lines formation))) (lines formation)).

(** Index of the first seat of line [i]. *)
Definition lineStart (ns : list nat) (i : nat) : nat := sum_list (take i ns).

End Layout.

(** ** The layout calculator in double precision *)

(** [calcPositions] on a formation of counts with every operation rounded
    as the program rounds it (IEEE 754 binary64, round to nearest even). *)
Module Doubles.
Import PrimFloat.
#[local] Set Warnings "-inexact-float".
Local Open Scope float_scope.

(** [{ x: number; y: number }]. *)
Record Position : Type := mkPosition { x : float; y : float }.

(** The double that holds a count or a loop index. *)
Fixpoint ofNat (n : nat) : float :=
  match n with
  | O => 0
  | S k => ofNat k + 1
  end.

(** The [y] of line [lineIndex]; the [rawY]/[computedY] computation before
    the [if], which both branches overwrite, is left out. *)
Definition yForLine (len lineIndex : nat) : float :=
  if Nat.eqb lineIndex 0 then 90
  else
    let totalLines := ofNat len in
    let topY := 10 in
    let bottomY := 90 in
    let spacing := (bottomY - topY) / (totalLines - 1) in
    bottomY - (spacing * ofNat lineIndex).

(** [const baseX = ((lineCount - i) / (lineCount + 1)) * 100]. *)
Definition baseX (lineCount i : nat) : float :=
  ((ofNat lineCount - ofNat i) / (ofNat lineCount + 1)) * 100.

(** [const x = 50 + (baseX - 50) * 1.2]. *)
Definition seatX (lineCount i : nat) : float :=
  let baseX := baseX lineCount i in
  50 + (baseX - 50) * 1.2.

Definition calcPositions (lines : list nat) : list Position :=
  mjoin (imap (fun lineIndex lineCount =>
                 map (fun i => mkPosition (seatX lineCount i)
                                          (yForLine (length lines) lineIndex))
                     (seq 0 lineCount))
              lines).

(** Symmetry about [x = 50] and even spacing within line [i], read as
    equalities between the doubles the program computes. *)
Definition symmetricLine (lines : list nat) (i : nat) : Prop :=
  forall n k a b,
    lines !! i = Some n -> (k < n)%nat ->
    calcPositions lines !! (Layout.lineStart lines i + k)%nat = Some a ->
    calcPositions lines !! (Layout.lineStart lines i + (n - 1 - k))%nat
    = Some b ->
    x a + x b = 100.

Definition evenlySpacedLine (lines : list nat) (i : nat) : Prop :=
  forall n k a b c,
    lines !! i = Some n -> (S (S k) < n)%nat ->
    calcPositions lines !! (Layout.lineStart lines i + k)%nat = Some a ->
    calcPositions lines !! (Layout.lineStart lines i + S k)%nat = Some b ->
    calcPositions lines !! (Layout.lineStart lines i + S (S k))%nat = Some c ->
    x a - x b = x b - x c.

(** Two doubles are [near] when they differ by at most [2^-40], about
    [9.1e-13]. *)
Definition tolerance : float := 0x1p-40.

Definition near (a b : float) : bool := abs (a - b) <=? tolerance.

(** [a] and [b] add up to 100, nearly. *)
Definition mirrored (a b : float) : bool := near (a + b) 100.

(** [a] is 1.2 times as far from the centre as the [baseX] of seat [k] in
    a line of [n], nearly. *)
Definition widened (n k : nat) (a : float) : bool :=
  near (a - 50) ((baseX n k - 50) * 1.2).

(** The step from [a] down to [b] is [120 / (n + 1)], nearly. *)
Definition stepped (n : nat) (a b : float) : bool :=
  near (a - b) (120 / (ofNat n + 1)).

(** [b] is strictly to the left of [a]. *)
Definition leftOf (b a : float) : bool := b <? a.

(** All four at seat [k] of a line of [n]. *)
Definition lineChecks (n k : nat) : bool :=
  mirrored (seatX n k) (seatX n (n - 1 - k))
  && widened n k (seatX n k)
  && (if Nat.ltb (S k) n
      then stepped n (seatX n k) (seatX n (S k))
           && leftOf (seatX n (S k)) (seatX n k)
      else true).

(** [a] is not a percentage of the pitch width. *)
Definition offPitch (a : float) : bool := (a <? 0) || (100 <? a).

End Doubles.

(** ** Override store and mode transform *)

Inductive Side : Type := A | B.

Module Overrides.
Import Layout.

(** The resolution step shared by the broadcast and by all four render
    loops: [const defaultPos = playerPositions[index]; if (!defaultPos)
    return null; const pos = overrides[index] ?? defaultPos]. *)
Definition effectivePosition (overrides : gmap nat Position)
    (playerPositions : list Position) (index : nat) : option Position :=
  match playerPositions !! index with
  | None => None
  | Some defaultPos =>
      Some (match overrides !! index with
            | Some o => o
            | None => defaultPos
            end)
  end.

(** Combined-vertical projection of team A: [mappedX], [mappedY] with
    [topStart = 2], [topSpan = 50]. *)
Definition mapVerticalA (pos : Position) : Position :=
  (let topStart := 2 in
   let topSpan := 50 in
   let mappedY := topStart + (py pos / 100) * topSpan in
   let mappedX := 50 + (px pos - 50) * 1.15 in
   mkPosition mappedX mappedY)%Q.

(** Combined-vertical projection of team B: mirrored, [bottomStart = 48],
    [bottomSpan = 50].  On exact rationals [mappedY] is 100 minus team A's;
    the doubles of the program can differ from that by one rounding. *)
Definition mapVerticalB (pos : Position) : Position :=
  (let bottomStart := 48 in
   let bottomSpan := 50 in
   let mirroredY := 100 - py pos in
   let mappedY := bottomStart + (mirroredY / 100) * bottomSpan in
   let mappedX := 50 + (px pos - 50) * 1.15 in
   mkPosition mappedX mappedY)%Q.

Definition mapVertical (side : Side) : Position -> Position :=
  match side with A => mapVerticalA | B => mapVerticalB end.

(** What a seat is drawn at ([left], [top] in percent): the projection in
    vertical mode, the resolved position itself in split mode. *)
Definition renderPosition (side : Side) (verticalMode : bool)
    (overrides : gmap nat Position) (playerPositions : list Position)
    (index : nat) : option Position :=
  match effectivePosition overrides playerPositions index with
  | None => None
  | Some pos => Some (if verticalMode then mapVertical side pos else pos)
  end.

(** What the drag handlers store for a pointer-derived percentage [p]:
    [onPointerMove] (team A) and [onPointerMoveB] (team B). *)
Definition dragStore (side : Side) (verticalMode : bool) (p : Position)
  : Position :=
  if verticalMode then
    match side with
    | A => let halfY := clamp01 ((py p / 50) * 100)%Q in mkPosition (px p) halfY
    | B => let halfY := clamp01 (((100 - py p) / 50) * 100)%Q in
           mkPosition (px p) halfY
    end
  else p.

(** Projection to the combined pitch followed by the handlers' mapping back. *)
Definition roundTrip (side : Side) (pos : Position) : Position :=
  dragStore side true (mapVertical side pos).

(** [|a - b| > 1e-6]: [a] is not within the round-trip tolerance of [b]. *)
Definition beyond_tolerance (a b : Q) : Prop :=
  (1 / 1000000 < Qabs (a - b))%Q.

End Overrides.

(** ** Session state and broadcast payload *)

Module Session.
Import Layout Overrides.

(** [interface Player]; the three optional fields are [None] when absent. *)
Record Player : Type := mkPlayer {
  number : string;
  playerName : string;
  yellowCard : option bool;
  redCard : option bool;
  goals : option nat
}.

(** The per-team state variables: [formation]/[formationB],
    [players]/[playersB], [teamNameA]/[teamNameB], [overrides]/[overridesB].
    Uniform colour and logo, which no layout, override or feed-matching code
    reads, are left out. *)
Record Team : Type := mkTeam {
  formation : Formation;
  players : list Player;
  teamName : string;
  overrides : gmap nat Position
}.

(** Parameters of [broadcastCurrentPlayerPositions]. *)
Record BroadcastArgs : Type := mkBroadcastArgs {
  b_teamA : Team;
  b_teamB : Team;
  b_verticalMode : bool;
  b_scoreA : Z;
  b_scoreB : Z;
  b_matchTime : option string;
  b_matchStatus : option string
}.

(** A pending [window.setTimeout]: its delay in ms and what it will run. *)
Inductive Callback : Type :=
  | HandlePlayerClick (side : Side) (index : nat)
  | Broadcast (args : BroadcastArgs).

Record Timer : Type := mkTimer { delay : nat; callback : Callback }.

(** [interface DragState]. *)
Record DragState : Type := mkDragState {
  index : nat;
  startX : Q;
  startY : Q;
  moved : bool;
  pointerOffsetX : Q;
  pointerOffsetY : Q
}.

(** [getBoundingClientRect()]. *)
Record DOMRect : Type := mkDOMRect { left : Q; top : Q; width : Q; height : Q }.

(** The per-team pointer track: [draggingRef]/[draggingRefB],
    [singleClickTimerRef]/[singleClickTimerRefB] (holding the pending timer),
    [selectedPlayer]/[selectedPlayerB], [editingPlayer]/[editingPlayerB]. *)
Record Pointer : Type := mkPointer {
  draggingRef : option DragState;
  singleClickTimerRef : option Timer;
  selectedPlayer : option nat;
  editingPlayer : option Player
}.

(** The component state.  [timeouts] collects the [setTimeout] calls whose
    handle is not kept in a ref. *)
Record App : Type := mkApp {
  teamA : Team;
  teamB : Team;
  pointerA : Pointer;
  pointerB : Pointer;
  fieldRef : option DOMRect;
  fieldRefB : option DOMRect;
  scoreA : Z;
  scoreB : Z;
  verticalMode : bool;
  broadcastTimerRef : option Timer;
  timeouts : list Timer;
  selectedFixtureId : option Z;
  autoRefreshEnabled : bool
}.

Definition other (side : Side) : Side :=
  match side with A => B | B => A end.

Definition team (side : Side) (st : App) : Team :=
  match side with A => teamA st | B => teamB st end.

Definition pointer (side : Side) (st : App) : Pointer :=
  match side with A => pointerA st | B => pointerB st end.

(** State setters. *)
Definition withTeams (a b : Team) (st : App) : App :=
  mkApp a b (pointerA st) (pointerB st) (fieldRef st) (fieldRefB st)
        (scoreA st) (scoreB st) (verticalMode st) (broadcastTimerRef st)
        (timeouts st) (selectedFixtureId st) (autoRefreshEnabled st).

Definition withTeam (side : Side) (t : Team) (st : App) : App :=
  match side with
  | A => withTeams t (teamB st) st
  | B => withTeams (teamA st) t st
  end.

Definition withPointer (side : Side) (p : Pointer) (st : App) : App :=
  mkApp (teamA st) (teamB st)
        (match side with A => p | B => pointerA st end)
        (match side with A => pointerB st | B => p end)
        (fieldRef st) (fieldRefB st)
        (scoreA st) (scoreB st) (verticalMode st) (broadcastTimerRef st)
        (timeouts st) (selectedFixtureId st) (autoRefreshEnabled st).

Definition withScores (a b : Z) (st : App) : App :=
  mkApp (teamA st) (teamB st) (pointerA st) (pointerB st)
        (fieldRef st) (fieldRefB st) a b (verticalMode st)
        (broadcastTimerRef st) (timeouts st) (selectedFixtureId st)
        (autoRefreshEnabled st).

Definition withBroadcastTimer (t : option Timer) (st : App) : App :=
  mkApp (teamA st) (teamB st) (pointerA st) (pointerB st)
        (fieldRef st) (fieldRefB st) (scoreA st) (scoreB st) (verticalMode st)
        t (timeouts st) (selectedFixtureId st) (autoRefreshEnabled st).

Definition addTimeout (t : Timer) (st : App) : App :=
  mkApp (teamA st) (teamB st) (pointerA st) (pointerB st)
        (fieldRef st) (fieldRefB st) (scoreA st) (scoreB st) (verticalMode st)
        (broadcastTimerRef st) (timeouts st ++ [t]) (selectedFixtureId st)
        (autoRefreshEnabled st).

Definition withFixture (fixture : option Z) (auto : bool) (st : App) : App :=
  mkApp (teamA st) (teamB st) (pointerA st) (pointerB st)
        (fieldRef st) (fieldRefB st) (scoreA st) (scoreB st) (verticalMode st)
        (broadcastTimerRef st) (timeouts st) fixture auto.

(** [setOverrides(v)] / [setOverridesB(v)]. *)
Definition setOverrides (side : Side) (v : gmap nat Position) (st : App) : App :=
  let t := team side st in
  withTeam side (mkTeam (formation t) (players t) (teamName t) v) st.

(** The arguments a handler passes when it broadcasts the current state. *)
Definition currentArgs (st : App) : BroadcastArgs :=
  mkBroadcastArgs (teamA st) (teamB st) (verticalMode st)
                  (scoreA st) (scoreB st) None None.

(** *** Broadcast payload *)

(** One entry of [teams.A] / [teams.B]. *)
Record Seat : Type := mkSeat {
  seat_id : string;
  seat_team : Side;
  seat_number : string;
  seat_name : string;
  seat_x : Q;
  seat_y : Q;
  seat_yellowCard : bool;
  seat_redCard : bool
}.

Record Payload : Type := mkPayload {
  p_verticalMode : bool;
  p_scoreA : Z;
  p_scoreB : Z;
  p_elapsed : option string;
  p_status : option string;
  p_nameA : string;
  p_formationA : string;
  p_nameB : string;
  p_formationB : string;
  p_teamsA : list Seat;
  p_teamsB : list Seat
}.

(** [Math.round(v * 100) / 100] on exact rationals: the nearest whole
    number of hundredths, a tie going up.  The program rounds the product
    [v * 100] to a double before [Math.round] sees it, which takes a [v]
    that lies just below a tie, such as the double nearest 1.115, to the
    upper hundredth. *)
Definition round2 (v : Q) : Q :=
  (inject_Z (Qfloor (v * 100 + 1 / 2)) / 100)%Q.

Definition sideLetter (side : Side) : string :=
  match side with A => "A" | B => "B" end.

(** [v || fallback] on strings. *)
Definition orString (v fallback : string) : string :=
  if String.eqb v EmptyString then fallback else v.

(** The callback of [players.map] / [playersB.map] in the broadcast. *)
Definition broadcastSeat (side : Side) (verticalMode : bool)
    (overrides : gmap nat Position) (playerPositions : list Position)
    (index : nat) (player : Player) : option Seat :=
  match effectivePosition overrides playerPositions index with
  | None => None
  | Some pos =>
      let pos := if verticalMode then mapVertical side pos else pos in
      Some (mkSeat (sideLetter side +:+ "-" +:+ pretty index) side
                   (number player) (playerName player)
                   (round2 (px pos)) (round2 (py pos))
                   (default false (yellowCard player))
                   (default false (redCard player)))
  end.

(** [players.map(...).filter(Boolean)]. *)
Definition teamPositions (side : Side) (verticalMode : bool) (t : Team)
  : list Seat :=
  omap id (imap (broadcastSeat side verticalMode (overrides t)
                               (calcPositions (formation t)))
                (players t)).

(** [broadcastCurrentPlayerPositions]: the data handed to the sink, or
    nothing when the sink is absent. *)
Definition broadcastCurrentPlayerPositions (args : BroadcastArgs)
    (electronAPI : bool) : option Payload :=
  if negb electronAPI then None
  else
    Some (mkPayload (b_verticalMode args) (b_scoreA args) (b_scoreB args)
            (match b_matchTime args with
             | Some t => if String.eqb t EmptyString then None else Some t
             | None => None
             end)
            (match b_matchStatus args with
             | Some t => if String.eqb t EmptyString then None else Some t
             | None => None
             end)
            (orString (teamName (b_teamA args)) "Team A")
            (name (formation (b_teamA args)))
            (orString (teamName (b_teamB args)) "Team B")
            (name (formation (b_teamB args)))
            (teamPositions A (b_verticalMode args) (b_teamA args))
            (teamPositions B (b_verticalMode args) (b_teamB args))).

End Session.

(** ** Drag controller *)

Module Drag.
Import Layout Overrides Session.

Definition MOVEMENT_THRESHOLD : Q := 6.

(** [Math.hypot(dx, dy) > MOVEMENT_THRESHOLD], on the squares. *)
Definition exceedsThreshold (dx dy : Q) : bool :=
  negb (Qle_bool (dx * dx + dy * dy) (MOVEMENT_THRESHOLD * MOVEMENT_THRESHOLD)).

(** The part of a pointer event the handlers read: the pointer and the
    bounding box of the seat element the handler is attached to. *)
Record PointerEvent : Type := mkPointerEvent {
  clientX : Q;
  clientY : Q;
  currentTarget : DOMRect
}.

(** The arithmetic of [toPercent] once the element is known. *)
Definition percentOf (rect : DOMRect) (cX cY : Q) : Position :=
  let x := (((cX - left rect) / width rect) * 100)%Q in
  let y := (((cY - top rect) / height rect) * 100)%Q in
  mkPosition (clamp01 x) (clamp01 y).

(** [toPercent(clientX, clientY, ref)]: [ref?.current ?? fieldRef.current]. *)
Definition toPercent (st : App) (cX cY : Q) (ref : option DOMRect)
  : option Position :=
  let el := match ref with Some r => Some r | None => fieldRef st end in
  match el with
  | None => None
  | Some rect => Some (percentOf rect cX cY)
  end.

Definition setDragging (side : Side) (d : option DragState) (st : App) : App :=
  let p := pointer side st in
  withPointer side
    (mkPointer d (singleClickTimerRef p) (selectedPlayer p) (editingPlayer p)) st.

Definition setClickTimer (side : Side) (t : option Timer) (st : App) : App :=
  let p := pointer side st in
  withPointer side
    (mkPointer (draggingRef p) t (selectedPlayer p) (editingPlayer p)) st.

(** [onPointerDown] / [onPointerDownB]. *)
Definition onPointerDown (side : Side) (e : PointerEvent) (idx : nat)
    (st : App) : App :=
  let rect := currentTarget e in
  let centerX := (left rect + width rect / 2)%Q in
  let centerY := (top rect + height rect / 2)%Q in
  setDragging side
    (Some (mkDragState idx (clientX e) (clientY e) false
                       (clientX e - centerX)%Q (clientY e - centerY)%Q)) st.

(** [onPointerMove] / [onPointerMoveB]. *)
Definition onPointerMove (side : Side) (e : PointerEvent) (st : App) : App :=
  match draggingRef (pointer side st) with
  | None => st
  | Some dr =>
      let dx := (clientX e - startX dr)%Q in
      let dy := (clientY e - startY dr)%Q in
      let dr :=
        if exceedsThreshold dx dy
        then mkDragState (index dr) (startX dr) (startY dr) true
                         (pointerOffsetX dr) (pointerOffsetY dr)
        else dr in
      let st := setDragging side (Some dr) st in
      let adjustedClientX := (clientX e - pointerOffsetX dr)%Q in
      let adjustedClientY := (clientY e - pointerOffsetY dr)%Q in
      let ref := match side with
                 | A => fieldRef st
                 | B => if verticalMode st then fieldRef st else fieldRefB st
                 end in
      match toPercent st adjustedClientX adjustedClientY ref with
      | None => st
      | Some p =>
          setOverrides side
            (<[index dr := dragStore side (verticalMode st) p]>
               (overrides (team side st))) st
      end
  end.

(** [onPointerUp] / [onPointerUpB] (also bound to [onPointerCancel]). *)
Definition onPointerUp (side : Side) (st : App) : App :=
  match draggingRef (pointer side st) with
  | None => st
  | Some dr =>
      let st := setDragging side None st in
      if negb (moved dr) then
        setClickTimer side
          (Some (mkTimer 250 (HandlePlayerClick side (index dr)))) st
      else
        withBroadcastTimer (Some (mkTimer 100 (Broadcast (currentArgs st)))) st
  end.

(** [handlePlayerClick] / [handlePlayerClickB]. *)
Definition handlePlayerClick (side : Side) (idx : nat) (st : App) : App :=
  let p := pointer side st in
  withPointer side
    (mkPointer (draggingRef p) (singleClickTimerRef p) (Some idx)
               (players (team side st) !! idx)) st.

(** The pending single-click timer fires. *)
Definition fireSingleClick (side : Side) (st : App) : App :=
  match singleClickTimerRef (pointer side st) with
  | Some (mkTimer _ (HandlePlayerClick s idx)) =>
      setClickTimer side None (handlePlayerClick s idx st)
  | _ => st
  end.

(** [onDoubleClick] of a seat. *)
Definition onDoubleClick (side : Side) (idx : nat) (st : App) : App :=
  handlePlayerClick side idx (setClickTimer side None st).

(** A whole gesture on one seat: down, the moves in order, up. *)
Definition gesture (side : Side) (idx : nat) (down : PointerEvent)
    (moves : list PointerEvent) (st : App) : App :=
  onPointerUp side
    (fold_left (fun s e => onPointerMove side e s) moves
               (onPointerDown side down idx st)).

(** Distance of a move from the press point, compared on the squares. *)
Definition displacementSq (down e : PointerEvent) : Q :=
  ((clientX e - clientX down) * (clientX e - clientX down)
   + (clientY e - clientY down) * (clientY e - clientY down))%Q.

(** The drag state [onPointerDown] records. *)
Definition pressed (idx : nat) (down : PointerEvent) : DragState :=
  let rect := currentTarget down in
  mkDragState idx (clientX down) (clientY down) false
    (clientX down - (left rect + width rect / 2))%Q
    (clientY down - (top rect + height rect / 2))%Q.

(** The override one move event writes for the pressed seat. *)
Definition storedAt (side : Side) (vertical : bool) (rect : DOMRect)
    (down e : PointerEvent) : Position :=
  let dr := pressed 0 down in
  dragStore side vertical
    (percentOf rect (clientX e - pointerOffsetX dr)%Q
                    (clientY e - pointerOffsetY dr)%Q).

(** The drag-threshold property as the testable properties word it: below
    6 px the store is untouched and the click is scheduled; from 6 px on the
    store is changed and no click is scheduled. *)
Definition thresholdClaim (side : Side) (idx : nat) (down : PointerEvent)
    (moves : list PointerEvent) (st : App) : Prop :=
  let st' := gesture side idx down moves st in
  (Forall (fun e => (displacementSq down e < 36)%Q) moves ->
     overrides (team side st') = overrides (team side st)
     /\ singleClickTimerRef (pointer side st')
        = Some (mkTimer 250 (HandlePlayerClick side idx)))
  /\ (Exists (fun e => (36 <= displacementSq down e)%Q) moves ->
       overrides (team side st') <> overrides (team side st)
       /\ singleClickTimerRef (pointer side st')
          = singleClickTimerRef (pointer side st)).

(** The field element a side's move handler measures against. *)
Definition fieldOf (side : Side) (st : App) : option DOMRect :=
  match (match side with
         | A => fieldRef st
         | B => if verticalMode st then fieldRef st else fieldRefB st
         end) with
  | Some r => Some r
  | None => fieldRef st
  end.

(** The state between press and release: the base state with the pressed
    seat's drag record and the side's override map replaced. *)
Definition dragging (side : Side) (dr : DragState) (m : gmap nat Position)
    (st : App) : App :=
  setOverrides side m (setDragging side (Some dr) st).

(** The drag record after one more move: only [moved] can change. *)
Definition noteMove (dr : DragState) (e : PointerEvent) : DragState :=
  if exceedsThreshold (clientX e - startX dr)%Q (clientY e - startY dr)%Q
  then mkDragState (index dr) (startX dr) (startY dr) true
                   (pointerOffsetX dr) (pointerOffsetY dr)
  else dr.

End Drag.

(** ** Formation change and team swap *)

Module Editors.
Import Layout Overrides Session.

Definition addLines (a b : jsint) : jsint :=
  match a, b with
  | Int x, Int y => Int (x + y)
  | _, _ => NaN
  end.

(** [newFormation.lines.reduce((sum, line) => sum + line, 0)]. *)
Definition sumLines (ls : list jsint) : jsint := fold_left addLines ls (Int 0).

Definition defaultName (i : nat) : string := "선수 " +:+ pretty (i + 1).

(** One element of [Array.from({ length: newTotal }, (_, i) => ...)]. *)
Definition carriedPlayer (old : list Player) (i : nat) : Player :=
  mkPlayer
    (match old !! i with
     | Some p => orString (number p) (pretty (i + 1))
     | None => pretty (i + 1)
     end)
    (match old !! i with
     | Some p => orString (playerName p) (defaultName i)
     | None => defaultName i
     end)
    None None None.

(** [updatePlayersForFormation] (team A) / [updatePlayersForFormationB]. *)
Definition updatePlayersForFormation (side : Side) (newFormation : Formation)
    (st : App) : App :=
  let newTotal := sumLines (lines newFormation) in
  let newPlayers :=
    map (carriedPlayer (players (team side st))) (seq 0 (loopCount newTotal)) in
  let t := mkTeam newFormation newPlayers (teamName (team side st)) ∅ in
  let st := withTeam side t st in
  addTimeout (mkTimer 0 (Broadcast (currentArgs st))) st.

(** [handleSwapTeams]. *)
Definition handleSwapTeams (st : App) : App :=
  let tempTeam := teamA st in
  withTeams (teamB st) tempTeam st.

(** "Every override entry that existed before is destroyed": an entry of
    either map of [pre] is in neither map of [post]. *)
Definition overridesDestroyed (pre post : App) : Prop :=
  forall side (i : nat) (p : Position),
    overrides (team side pre) !! i = Some p ->
    forall side', overrides (team side' post) !! i <> Some p.

End Editors.

(** ** Match-feed reconciler *)

Module Reconciler.
Import Layout Overrides Session Editors.

(** *** Formation strings *)

(** [s.split(sep)] for a one-character separator. *)
Fixpoint split (sep : ascii) (s : string) : list string :=
  match s with
  | EmptyString => [EmptyString]
  | String c rest =>
      if Ascii.eqb c sep then EmptyString :: split sep rest
      else match split sep rest with
           | part :: parts => String c part :: parts
           | [] => [String c EmptyString]
           end
  end.

(** Value of a decimal digit character. *)
Definition digitValue (c : ascii) : option Z :=
  let n := nat_of_ascii c in
  if (48 <=? n)%nat && (n <=? 57)%nat then Some (Z.of_nat (n - 48)) else None.

(** The white space [parseInt] skips (the ASCII part of it). *)
Definition isWhiteSpace (c : ascii) : bool :=
  let n := nat_of_ascii c in
  (n =? 32)%nat || ((9 <=? n)%nat && (n <=? 13)%nat).

Fixpoint trimStart (s : string) : string :=
  match s with
  | String c rest => if isWhiteSpace c then trimStart rest else s
  | EmptyString => s
  end.

(** Longest prefix of digits, read in base 10; [None] when it is empty. *)
Fixpoint parseDigits (acc : option Z) (s : string) : option Z :=
  match s with
  | EmptyString => acc
  | String c rest =>
      match digitValue c with
      | Some d => parseDigits (Some (10 * default 0%Z acc + d)%Z) rest
      | None => acc
      end
  end.

(** [parseInt(s, 10)]. *)
Definition parseInt (s : string) : jsint :=
  let s := trimStart s in
  let '(sign, s) :=
    match s with
    | String "-" rest => ((-1)%Z, rest)
    | String "+" rest => (1%Z, rest)
    | _ => (1%Z, s)
    end in
  match parseDigits None s with
  | None => NaN
  | Some v => Int (sign * v)
  end.

(** [parseFormation]; the argument is [None] for [null]/[undefined]. *)
Definition parseFormation (formationStr : option string) : list jsint :=
  match formationStr with
  | None => [Int 1; Int 4; Int 3; Int 3]
  | Some str =>
      if String.eqb str EmptyString then [Int 1; Int 4; Int 3; Int 3]
      else
        let parts := map parseInt (split "-" str) in
        Int 1 :: parts
  end.

(** A run of decimal digits and the integer it denotes. *)
Definition digitChar (d : nat) : ascii := ascii_of_nat (48 + d).

Definition digitsString (ds : list nat) : string :=
  fold_right (fun d s => String (digitChar d) s) EmptyString ds.

Definition digitsValue (ds : list nat) : Z :=
  fold_left (fun acc d => (10 * acc + Z.of_nat d)%Z) ds 0%Z.

(** Digit runs joined by ['-'], as in ["4-2-3-1"]. *)
Fixpoint joinDash (parts : list (list nat)) : string :=
  match parts with
  | [] => EmptyString
  | [ds] => digitsString ds
  | ds :: rest => digitsString ds +:+ String "-" (joinDash rest)
  end.

(** *** Feed data *)

(** [{ player: { id, name, number } }] of [startXI]. *)
Record FeedPlayer : Type := mkFeedPlayer {
  fp_id : option Z;
  fp_name : option string;
  fp_number : option Z
}.

(** An entry of [latestFixture.events]. *)
Record FeedEvent : Type := mkFeedEvent {
  ev_type : string;
  ev_detail : string;
  ev_player_id : option Z;
  ev_player_name : option string
}.

Record Lineup : Type := mkLineup {
  l_formation : option string;
  startXI : list FeedPlayer
}.

Record Fixture : Type := mkFixture {
  goals_home : option Z;
  goals_away : option Z;
  status_elapsed : option Z;
  status_short : string;
  events : list FeedEvent
}.

(** The [homeTeam] / [awayTeam] argument. *)
Record FeedTeam : Type := mkFeedTeam { ft_name : string }.

(** Outcome of the two fetches: a thrown error, or the two [response]
    fields ([None] for an absent lineup [response]). *)
Inductive FetchResult : Type :=
  | FetchFailed
  | Fetched (lineupResponse : option (list Lineup))
            (fixtureResponse : list Fixture).

(** [String(id)]. *)
Definition String_ (id : option Z) : string :=
  match id with
  | None => "null"
  | Some z => pretty z
  end.

Definition sameId (a b : option Z) : bool := String.eqb (String_ a) (String_ b).

(** [s.includes(needle)]. *)
Definition includes (s needle : string) : bool :=
  match String.index 0 needle s with Some _ => true | None => false end.

(** The predicate of the goal-count [filter] in [mapPlayersWithLog]. *)
Definition isGoalOf (p : FeedPlayer) (ev : FeedEvent) : bool :=
  String.eqb (ev_type ev) "Goal"
  && negb (String.eqb (ev_detail ev) "Missed Penalty")
  && (sameId (ev_player_id ev) (fp_id p)
      || match fp_name p with
         | Some pName =>
             negb (String.eqb pName EmptyString)
             && bool_decide (ev_player_name ev = Some pName)
         | None => false
         end).

(** The predicate of the card [some] calls. *)
Definition isCardOf (card : string) (p : FeedPlayer) (ev : FeedEvent) : bool :=
  String.eqb (ev_type ev) "Card"
  && includes (ev_detail ev) card
  && (sameId (ev_player_id ev) (fp_id p)
      || bool_decide (ev_player_name ev = fp_name p)).

(** The callback of [startXI.map] in [mapPlayersWithLog]. *)
Definition mapPlayer (evs : list FeedEvent) (idx : nat) (p : FeedPlayer)
  : Player :=
  let goalCount := length (filter (fun ev => isGoalOf p ev = true) evs) in
  let hasYellow := existsb (isCardOf "Yellow Card" p) evs in
  let hasRed := existsb (isCardOf "Red Card" p) evs in
  mkPlayer
    (match fp_number p with
     | Some n => pretty n
     | None => pretty (idx + 1)
     end)
    (match fp_name p with
     | Some pName => orString pName (defaultName idx)
     | None => defaultName idx
     end)
    (Some hasYellow) (Some hasRed) (Some goalCount).

Definition mapPlayersWithLog (evs : list FeedEvent) (startXI : list FeedPlayer)
  : list Player :=
  imap (mapPlayer evs) startXI.

(** [formatMatchTime]: whole minutes, zero-padded to two digits, [":00"]. *)
Definition formatMatchTime (minutes : option Z) : option string :=
  match minutes with
  | None => None
  | Some mins =>
      let m := pretty mins in
      let m := if (String.length m <? 2)%nat then "0" +:+ m else m in
      Some (m +:+ ":00")
  end.

(** The formation a lineup announces: [lineup.formation || '4-3-3']. *)
Definition lineupFormation (l : Lineup) : Formation :=
  let str := match l_formation l with
             | Some f => orString f "4-3-3"
             | None => "4-3-3"
             end in
  mkFormation str (parseFormation (Some str)).

(** What an instance of [loadMatchLineup] reads from the render that
    created it: the state variables [overrides], [overridesB] and
    [verticalMode] as that render saw them.  A click in the match list calls
    the instance of the render on screen; the auto-refresh interval keeps
    calling the instance of the render in which its effect last ran (the
    effect's dependencies are [autoRefreshEnabled], [selectedFixtureId],
    [apiKey] and [liveMatches], none of which a drag changes). *)
Record Closure : Type := mkClosure {
  c_overrides : gmap nat Position;
  c_overridesB : gmap nat Position;
  c_verticalMode : bool
}.

(** The closure of the render that shows state [st]. *)
Definition closureOf (st : App) : Closure :=
  mkClosure (overrides (teamA st)) (overrides (teamB st)) (verticalMode st).

(** [loadMatchLineup], one call from the fetches to the state updates:
    [closure] holds the values captured by the instance that is called, [st]
    is the state when the fetches have resolved.  The setters change the
    state; the broadcast scheduled at the end is given the feed data and the
    captured [overrides], [overridesB] and [verticalMode].  Alerts, logging,
    the loading flag and the dialog flag are left out. *)
Definition loadMatchLineup (fixtureId : Z) (homeTeam awayTeam : FeedTeam)
    (isAutoRefresh : bool) (closure : Closure) (fetched : FetchResult)
    (st : App) : App :=
  match fetched with
  | FetchFailed => st
  | Fetched lineupResponse fixtureResponse =>
      match fixtureResponse with
      | [] => st
      | latestFixture :: _ =>
          match lineupResponse with
          | Some (homeLineup :: awayLineup :: _) =>
              let evs := events latestFixture in
              let homePlayers := mapPlayersWithLog evs (startXI homeLineup) in
              let homeFormation := lineupFormation homeLineup in
              let awayPlayers := mapPlayersWithLog evs (startXI awayLineup) in
              let awayFormation := lineupFormation awayLineup in
              (* setFormation, setPlayers, setTeamNameA,
                 if (!isAutoRefresh) setOverrides({}), and the same for B *)
              let newA :=
                mkTeam homeFormation homePlayers (ft_name homeTeam)
                       (if isAutoRefresh then overrides (teamA st) else ∅) in
              let newB :=
                mkTeam awayFormation awayPlayers (ft_name awayTeam)
                       (if isAutoRefresh then overrides (teamB st) else ∅) in
              let newScoreA := default 0%Z (goals_home latestFixture) in
              let newScoreB := default 0%Z (goals_away latestFixture) in
              let matchElapsedFormatted :=
                formatMatchTime (status_elapsed latestFixture) in
              let matchStatus := status_short latestFixture in
              let st := withScores newScoreA newScoreB (withTeams newA newB st) in
              (* setTimeout(() => broadcastCurrentPlayerPositions(
                   homeFormation, awayFormation, homePlayers, awayPlayers,
                   isAutoRefresh ? overrides : {},
                   isAutoRefresh ? overridesB : {}, verticalMode, ...), 100) *)
              let sentA :=
                mkTeam homeFormation homePlayers (ft_name homeTeam)
                       (if isAutoRefresh then c_overrides closure else ∅) in
              let sentB :=
                mkTeam awayFormation awayPlayers (ft_name awayTeam)
                       (if isAutoRefresh then c_overridesB closure else ∅) in
              let st :=
                addTimeout
                  (mkTimer 100
                     (Broadcast
                        (mkBroadcastArgs sentA sentB (c_verticalMode closure)
                           newScoreA newScoreB matchElapsedFormatted
                           (Some matchStatus)))) st in
              if isAutoRefresh then st
              else withFixture (Some fixtureId) true st
          | _ => st
          end
      end
  end.

(** Roster, score and status of [r] are the ones of the feed: the rosters
    and scores in the state, and in the broadcast scheduled last, which also
    carries the feed's status.  The override maps and the mode of that
    broadcast are not the state's but the ones [sentA], [sentB] and [mode]
    name. *)
Definition replacedFromFeed (homeLineup awayLineup : Lineup)
    (latestFixture : Fixture) (sentA sentB : gmap nat Position) (mode : bool)
    (r : App) : Prop :=
  players (teamA r)
  = mapPlayersWithLog (events latestFixture) (startXI homeLineup)
  /\ players (teamB r)
     = mapPlayersWithLog (events latestFixture) (startXI awayLineup)
  /\ scoreA r = default 0%Z (goals_home latestFixture)
  /\ scoreB r = default 0%Z (goals_away latestFixture)
  /\ exists args,
       last (timeouts r) = Some (mkTimer 100 (Broadcast args))
       /\ b_matchStatus args = Some (status_short latestFixture)
       /\ players (b_teamA args) = players (teamA r)
       /\ players (b_teamB args) = players (teamB r)
       /\ formation (b_teamA args) = formation (teamA r)
       /\ formation (b_teamB args) = formation (teamB r)
       /\ teamName (b_teamA args) = teamName (teamA r)
       /\ teamName (b_teamB args) = teamName (teamB r)
       /\ b_scoreA args = scoreA r /\ b_scoreB args = scoreB r
       /\ overrides (b_teamA args) = sentA
       /\ overrides (b_teamB args) = sentB
       /\ b_verticalMode args = mode.

(** The count the feed rule asks for, read literally: goal events that are
    not missed penalties and whose player has the same identifier or
    exactly the same name. *)
Definition goalEventFor (p : FeedPlayer) (ev : FeedEvent) : Prop :=
  ev_type ev = "Goal" /\ ev_detail ev <> "Missed Penalty"
  /\ (String_ (ev_player_id ev) = String_ (fp_id p)
      \/ ev_player_name ev = fp_name p).

#[global] Instance goalEventFor_dec p ev : Decision (goalEventFor p ev).
Proof. unfold goalEventFor. apply _. Defined.

(** The same count with the name clause as the code guards it: a name
    match needs a roster name that is present and not empty. *)
Definition goalEventNamed (p : FeedPlayer) (ev : FeedEvent) : Prop :=
  ev_type ev = "Goal" /\ ev_detail ev <> "Missed Penalty"
  /\ (String_ (ev_player_id ev) = String_ (fp_id p)
      \/ match fp_name p with
         | Some pName => pName <> EmptyString /\ ev_player_name ev = Some pName
         | None => False
         end).

#[global] Instance goalEventNamed_dec p ev : Decision (goalEventNamed p ev).
Proof. unfold goalEventNamed. destruct (fp_name p); apply _. Defined.

(** A decimal digit. *)
Definition isDigit (d : nat) : Prop := (d < 10)%nat.

(** A non-empty run of decimal digits. *)
Definition isNumeral (ds : list nat) : Prop := ds <> [] /\ Forall isDigit ds.

End Reconciler.

(** ** Score control ([ScoreDraggable]) *)

Module ScoreDraggable.

(** [clamp]: [Math.max(lo, Math.min(hi, n))]. *)
Definition clamp (n lo hi : Z) : Z := Z.max lo (Z.min hi n).

Record Props : Type := mkProps {
  value : Z;
  min : option Z;
  max : option Z
}.

(** Defaults of the destructured props: [min = 0], [max = 9]. *)
Definition minOf (p : Props) : Z := default 0%Z (min p).
Definition maxOf (p : Props) : Z := default 9%Z (max p).

Inductive Event : Type :=
  | KeyDown (key : string)
  | ClickValue
  | ClickMinus
  | ClickPlus
  | MouseDownOutside.

(** One event: the new [open] flag and the value passed to [onChange], if
    any.  The two buttons exist only while the control is open. *)
Definition handle (p : Props) (open : bool) (ev : Event) : bool * option Z :=
  match ev with
  | KeyDown key =>
      if String.eqb key "ArrowUp"
      then (open, Some (clamp (value p - 1) (minOf p) (maxOf p)))
      else if String.eqb key "ArrowDown"
      then (open, Some (clamp (value p + 1) (minOf p) (maxOf p)))
      else if String.eqb key "Enter" then (negb open, None)
      else (open, None)
  | ClickValue => (negb open, None)
  | ClickMinus =>
      if open then (open, Some (clamp (value p - 1) (minOf p) (maxOf p)))
      else (open, None)
  | ClickPlus =>
      if open then (open, Some (clamp (value p + 1) (minOf p) (maxOf p)))
      else (open, None)
  | MouseDownOutside => (false, None)
  end.

(** The control as the banner mounts it: [value] and [onChange] only. *)
Definition scoreProps (v : Z) : Props := mkProps v None None.

End ScoreDraggable.

(** ** Concrete sessions *)

Module Examples.
Import Layout Overrides Session Drag Editors.

(** The state at start-up: eleven default players in a 4-3-3 per team. *)
Definition initialTeam : Team :=
  mkTeam (formationOf "4-3-3" [1; 4; 3; 3]%nat)
         (map (fun i => mkPlayer (pretty (i + 1)) (defaultName i) None None None)
              (seq 0 11))
         EmptyString ∅.

Definition idle : Pointer := mkPointer None None None None.

Definition pitch : DOMRect := mkDOMRect 0 0 500 700.

Definition initialApp : App :=
  mkApp initialTeam initialTeam idle idle (Some pitch) (Some pitch)
        0 0 false None [] None false.

(** A session in which the operator has nudged one seat of each team. *)
Definition nudged : App :=
  setOverrides B {[ 1%nat := mkPosition 20 20 ]}
    (setOverrides A {[ 0%nat := mkPosition 10 10 ]} initialApp).

Definition f442 : Formation := formationOf "4-4-2" [1; 4; 4; 2]%nat.

(** A press on a seat card of 56 by 56 px centred at (250, 630). *)
Definition card : DOMRect := mkDOMRect 222 602 56 56.

Definition pressAt (x y : Q) : PointerEvent := mkPointerEvent x y card.

(** Combined-vertical mode on a pitch of 100 by 100 px at the origin, so
    that client coordinates are percentages, with seat 0 of team A
    overridden to (60, 50). *)
Definition verticalApp : App :=
  mkApp (mkTeam (formationOf "4-3-3" [1; 4; 3; 3]%nat) (players initialTeam) EmptyString
                {[ 0%nat := mkPosition 60 50 ]})
        initialTeam idle idle (Some (mkDOMRect 0 0 100 100)) None
        0 0 true None [] None false.

(** A pointer exactly on the centre of the card drawn at (61.5, 27). *)
Definition onCard : PointerEvent :=
  mkPointerEvent 61.5 27 (mkDOMRect 33.5 (-1) 56 56).

End Examples.

(** ** Edit dialog, logo URLs, snapshots, card labels and match tabs *)

(** The two card buttons of the edit dialog. *)
Module EditDialog.
Import Session.

(** Truthiness of an optional flag ([undefined] is falsy). *)
Definition flag (b : option bool) : bool := default false b.

(** [onClick] of the yellow-card button: [{ ...editingPlayer, yellowCard:
    !editingPlayer.yellowCard, redCard: editingPlayer.yellowCard ? false :
    editingPlayer.redCard }]. *)
Definition toggleYellow (editingPlayer : Player) : Player :=
  mkPlayer (number editingPlayer) (playerName editingPlayer)
           (Some (negb (flag (yellowCard editingPlayer))))
           (if flag (yellowCard editingPlayer) then Some false
            else redCard editingPlayer)
           (goals editingPlayer).

(** [onClick] of the red-card button. *)
Definition toggleRed (editingPlayer : Player) : Player :=
  mkPlayer (number editingPlayer) (playerName editingPlayer)
           (if flag (redCard editingPlayer) then Some false
            else yellowCard editingPlayer)
           (Some (negb (flag (redCard editingPlayer))))
           (goals editingPlayer).

End EditDialog.

(** [convertLogoPathToURL]. *)
Module Assets.

Definition HTTP_SERVER_URL : string := "http://127.0.0.1:9104".

(** [s.startsWith(pre)]. *)
Definition startsWith (s pre : string) : bool := String.prefix pre s.

(** [s.substring(n)]: [s] without its first [n] characters. *)
Fixpoint substring (n : nat) (s : string) : string :=
  match n, s with
  | O, _ => s
  | S n, String _ rest => substring n rest
  | S _, EmptyString => EmptyString
  end.

(** [convertLogoPathToURL]; [None] is [null]. *)
Definition convertLogoPathToURL (logoPath : option string) : option string :=
  match logoPath with
  | None => None
  | Some logoPath =>
      if String.eqb logoPath EmptyString then None
      else if startsWith logoPath "http://" || startsWith logoPath "https://"
      then Some logoPath
      else if startsWith logoPath "./assets/"
      then Some (HTTP_SERVER_URL +:+ "/assets/"
                 +:+ substring (String.length "./assets/") logoPath)
      else if startsWith logoPath "assets/"
      then Some (HTTP_SERVER_URL +:+ "/" +:+ logoPath)
      else if startsWith logoPath "src/assets/"
      then Some (HTTP_SERVER_URL +:+ "/assets/"
                 +:+ substring (String.length "src/assets/") logoPath)
      else if startsWith logoPath "public/assets/"
      then Some (HTTP_SERVER_URL +:+ "/assets/"
                 +:+ substring (String.length "public/assets/") logoPath)
      else Some (HTTP_SERVER_URL +:+ "/" +:+ logoPath)
  end.

End Assets.

(** [collectAppSnapshot] and [applySnapshot]. *)
Module Snapshot.
Import Session.

(** [TeamEntry], the value of [teamLogoA] / [teamLogoB]. *)
Record TeamEntry : Type := mkTeamEntry {
  te_id : string;
  te_slug : string;
  te_country : string;
  te_englishName : string;
  te_svg : option string;
  te_png : option string
}.

(** The fifteen state variables a snapshot carries. *)
Record Fields : Type := mkFields {
  s_formation : Formation;
  s_players : list Player;
  s_uniformColor : string;
  s_overrides : gmap nat Position;
  s_formationB : Formation;
  s_playersB : list Player;
  s_uniformColorB : string;
  s_overridesB : gmap nat Position;
  s_teamNameA : string;
  s_teamLogoA : option TeamEntry;
  s_teamNameB : string;
  s_teamLogoB : option TeamEntry;
  s_scoreA : Z;
  s_scoreB : Z;
  s_verticalMode : bool
}.

(** A snapshot object as [applySnapshot] reads it: each field is [Some]
    when it is present and passes the field's test ([data.formation] truthy,
    [Array.isArray(data.players)], [typeof data.uniformColor === 'string'],
    ...), and [None] otherwise. *)
Record Data : Type := mkData {
  d_formation : option Formation;
  d_players : option (list Player);
  d_uniformColor : option string;
  d_overrides : option (gmap nat Position);
  d_formationB : option Formation;
  d_playersB : option (list Player);
  d_uniformColorB : option string;
  d_overridesB : option (gmap nat Position);
  d_teamNameA : option string;
  d_teamLogoA : option TeamEntry;
  d_teamNameB : option string;
  d_teamLogoB : option TeamEntry;
  d_scoreA : option Z;
  d_scoreB : option Z;
  d_verticalMode : option bool
}.

(** [collectAppSnapshot]: a [null] logo is a field that fails its test. *)
Definition collectAppSnapshot (st : Fields) : Data :=
  mkData (Some (s_formation st)) (Some (s_players st))
         (Some (s_uniformColor st)) (Some (s_overrides st))
         (Some (s_formationB st)) (Some (s_playersB st))
         (Some (s_uniformColorB st)) (Some (s_overridesB st))
         (Some (s_teamNameA st)) (s_teamLogoA st)
         (Some (s_teamNameB st)) (s_teamLogoB st)
         (Some (s_scoreA st)) (Some (s_scoreB st))
         (Some (s_verticalMode st)).

(** [applySnapshot]; [None] is a [data] that is [null] or not an object. *)
Definition applySnapshot (data : option Data) (st : Fields) : Fields :=
  match data with
  | None => st
  | Some data =>
      mkFields
        (default (s_formation st) (d_formation data))
        (default (s_players st) (d_players data))
        (default (s_uniformColor st) (d_uniformColor data))
        (default (s_overrides st) (d_overrides data))
        (default (s_formationB st) (d_formationB data))
        (default (s_playersB st) (d_playersB data))
        (default (s_uniformColorB st) (d_uniformColorB data))
        (default (s_overridesB st) (d_overridesB data))
        (default (s_teamNameA st) (d_teamNameA data))
        (match d_teamLogoA data with
         | Some logo => Some logo
         | None => s_teamLogoA st
         end)
        (default (s_teamNameB st) (d_teamNameB data))
        (match d_teamLogoB data with
         | Some logo => Some logo
         | None => s_teamLogoB st
         end)
        (default (s_scoreA st) (d_scoreA data))
        (default (s_scoreB st) (d_scoreB data))
        (default (s_verticalMode st) (d_verticalMode data))
  end.

(** The object [{}]: no field present. *)
Definition emptyData : Data :=
  mkData None None None None None None None None None None None None None
         None None.

End Snapshot.

(** The name label of [PlayerCard]. *)
Module CardLabel.
Import Reconciler.

(** [name.split(' ').filter(Boolean)]. *)
Definition nameParts (name : string) : list string :=
  List.filter (fun part => negb (String.eqb part EmptyString)) (split " " name).

(** [displayName]: first and last part when there are more than two. *)
Definition displayName (name : string) : string :=
  let nameParts := nameParts name in
  match nameParts with
  | first :: rest =>
      if (2 <? length nameParts)%nat
      then first +:+ " " +:+ List.last rest first
      else name
  | [] => name
  end.

(** A string without the character [c]. *)
Fixpoint without (c : ascii) (s : string) : bool :=
  match s with
  | EmptyString => true
  | String a rest => negb (Ascii.eqb a c) && without c rest
  end.

(** Number of occurrences of [c]. *)
Fixpoint occurrences (c : ascii) (s : string) : nat :=
  match s with
  | EmptyString => 0
  | String a rest =>
      (if Ascii.eqb a c then 1 else 0) + occurrences c rest
  end.

End CardLabel.

(** The three tabs of the live-match list. *)
Module Tabs.

Inductive Tab : Type := UPCOMING | LIVE | FINISHED.

(** The predicate of [liveMatches.filter] for the active tab. *)
Definition shownInTab (activeTab : Tab) (status : string) : bool :=
  match activeTab with
  | LIVE => existsb (String.eqb status) ["1H"; "HT"; "2H"; "ET"; "P"; "BT"]
  | UPCOMING => String.eqb status "NS"
  | FINISHED =>
      String.eqb status "FT" || String.eqb status "AET"
      || String.eqb status "PEN"
  end.

End Tabs.

(** ** Proofs: layout calculator *)

Module LayoutFacts.
Import Layout.

Lemma length_linePositions len i c :
  length (linePositions len i c) = loopCount c.
Proof.
  destruct c as [|n]; simpl; [reflexivity|].
  now rewrite length_map, length_seq.
Qed.

(** Two facts on a [forEach] that pushes a block per element. *)
Lemma length_join_imap {A B} (f : nat -> A -> list B) (n : A -> nat) ls :
  (forall j a, length (f j a) = n a) ->
  length (mjoin (imap f ls)) = sum_list (map n ls).
Proof.
  revert f. induction ls as [|a ls IH]; intros f Hf; simpl; [reflexivity|].
  rewrite length_app, Hf. f_equal. apply IH. intros j b. apply Hf.
Qed.

Lemma lookup_join_imap {A B} (f : nat -> A -> list B) (n : A -> nat) ls i a k b :
  (forall j a, length (f j a) = n a) ->
  ls !! i = Some a ->
  f i a !! k = Some b ->
  mjoin (imap f ls) !! (sum_list (map n (take i ls)) + k) = Some b.
Proof.
  revert f i. induction ls as [|c ls IH]; intros f i Hf Hi Hk; [discriminate|].
  destruct i as [|i]; simpl in *.
  - injection Hi as ->. now apply lookup_app_l_Some.
  - rewrite <- Nat.add_assoc, <- (Hf 0 c), lookup_app_r by lia.
    replace (length (f 0 c) + (sum_list (map n (take i ls)) + k) - length (f 0 c))
      with (sum_list (map n (take i ls)) + k) by lia.
    apply (IH (fun j => f (S j))); auto.
Qed.

Lemma length_calcPositions f :
  length (calcPositions f) = sum_list (map loopCount (lines f)).
Proof.
  unfold calcPositions. apply length_join_imap. intros j a.
  apply length_linePositions.
Qed.

Lemma loopCount_formationOf nm (ns : list nat) :
  map loopCount (lines (formationOf nm ns)) = ns.
Proof.
  simpl. induction ns as [|n ns IH]; simpl; [reflexivity|].
  now rewrite Nat2Z.id, IH.
Qed.

Lemma linePositions_lookup len i (n k : nat) :
  k < n ->
  linePositions len i (Int (Z.of_nat n)) !! k
  = Some (mkPosition (seatX (Z.of_nat n) (Z.of_nat k)) (yForLine len i)).
Proof.
  intros Hk. simpl. rewrite Nat2Z.id, list_lookup_fmap, lookup_seq_lt by lia.
  reflexivity.
Qed.

(** Seat [k] of line [i] of a formation of counts. *)
Lemma calcPositions_seat nm (ns : list nat) i n k :
  ns !! i = Some n -> k < n ->
  calcPositions (formationOf nm ns) !! (lineStart ns i + k)
  = Some (mkPosition (seatX (Z.of_nat n) (Z.of_nat k))
                     (yForLine (length ns) i)).
Proof.
  intros Hi Hk. unfold calcPositions, lineStart.
  pose proof (loopCount_formationOf nm ns) as Hc.
  assert (Hl : length (lines (formationOf nm ns)) = length ns)
    by (simpl; apply length_map).
  rewrite Hl.
  replace (take i ns) with (map loopCount (take i (lines (formationOf nm ns)))).
  2:{ change (map loopCount) with (fmap (M:=list) loopCount).
      rewrite fmap_take. exact (f_equal (take i) Hc). }
  apply (lookup_join_imap _ loopCount _ i (Int (Z.of_nat n))).
  - intros j a. apply length_linePositions.
  - simpl. change (map ?f ns) with (f <$> ns). now rewrite list_lookup_fmap, Hi.
  - now apply linePositions_lookup.
Qed.

(** *** Vertical coordinate of a line *)

Local Open Scope Q_scope.

(** Comparisons between injected integers reduce to [Z]. *)
Ltac inj_cmp := unfold Qlt, Qle; simpl; lia.

Lemma inject_nat_pos (n : nat) : (0 < n)%nat -> 0 < inject_Z (Z.of_nat n).
Proof. intros H. inj_cmp. Qed.

Lemma inject_nat_nonneg (n : nat) : 0 <= inject_Z (Z.of_nat n).
Proof. inj_cmp. Qed.

Lemma inject_nat_gt1 (n : nat) : (2 <= n)%nat -> 1 < inject_Z (Z.of_nat n).
Proof. intros H. inj_cmp. Qed.

Lemma inject_nat_lt (i j : nat) :
  (i < j)%nat -> inject_Z (Z.of_nat i) < inject_Z (Z.of_nat j).
Proof. intros H. rewrite <- Zlt_Qlt. lia. Qed.

Lemma inject_nat_pred (n : nat) :
  (1 <= n)%nat -> inject_Z (Z.of_nat (n - 1)) == inject_Z (Z.of_nat n) - 1.
Proof.
  intros H. rewrite Nat2Z.inj_sub by exact H.
  unfold Z.sub. rewrite inject_Z_plus, inject_Z_opp. simpl. ring.
Qed.

(** Both branches of the source agree with one formula: line 0 is the
    zeroth step down from the baseline. *)
Lemma yForLine_formula (len i : nat) :
  (2 <= len)%nat ->
  yForLine len i
  == 90 - (80 / (inject_Z (Z.of_nat len) - 1)) * inject_Z (Z.of_nat i).
Proof.
  intros Hlen. unfold yForLine.
  pose proof (inject_nat_gt1 len Hlen) as Hq.
  destruct i as [|i].
  - cbn [Nat.eqb]. change (inject_Z (Z.of_nat 0)) with 0. field. lra.
  - cbn [Nat.eqb]. field. lra.
Qed.

Lemma yForLine_goalkeeper (len : nat) : yForLine len 0 = 90.
Proof. reflexivity. Qed.

Lemma yForLine_last (len : nat) :
  (2 <= len)%nat -> yForLine len (len - 1) == 10.
Proof.
  intros Hlen. rewrite yForLine_formula by exact Hlen.
  rewrite inject_nat_pred by lia.
  pose proof (inject_nat_gt1 len Hlen) as Hq.
  field. lra.
Qed.

Lemma yForLine_decreasing (len i j : nat) :
  (2 <= len)%nat -> (i < j)%nat -> yForLine len j < yForLine len i.
Proof.
  intros Hlen Hij. rewrite !yForLine_formula by exact Hlen.
  pose proof (inject_nat_gt1 len Hlen) as Hq.
  pose proof (inject_nat_lt i j Hij) as Hlt.
  assert (Hs : 0 < 80 / (inject_Z (Z.of_nat len) - 1)).
  { apply Qlt_shift_div_l; lra. }
  set (s := 80 / (inject_Z (Z.of_nat len) - 1)) in *.
  assert (s * inject_Z (Z.of_nat i) < s * inject_Z (Z.of_nat j)).
  { apply Qmult_lt_l; assumption. }
  lra.
Qed.

Lemma yForLine_bounds (len i : nat) :
  (2 <= len)%nat -> (i < len)%nat -> 10 <= yForLine len i <= 90.
Proof.
  intros Hlen Hi. split.
  - destruct (Nat.eq_dec i (len - 1)%nat) as [->|Hne].
    + rewrite yForLine_last by exact Hlen. lra.
    + apply Qlt_le_weak. rewrite <- (yForLine_last len Hlen).
      apply yForLine_decreasing; [exact Hlen | lia].
  - destruct i as [|i].
    + rewrite yForLine_goalkeeper. lra.
    + apply Qlt_le_weak. rewrite <- (yForLine_goalkeeper len).
      apply yForLine_decreasing; [exact Hlen | lia].
Qed.

(** *** Horizontal coordinate within a line *)

(** On exact rationals the seats of a line are symmetric about 50 and one
    constant step apart; [Doubles] carries what is left of the two
    equalities after rounding. *)

Lemma seatX_formula (n k : nat) :
  seatX (Z.of_nat n) (Z.of_nat k)
  == 50 + ((inject_Z (Z.of_nat n) - inject_Z (Z.of_nat k))
           / (inject_Z (Z.of_nat n) + 1) * 100 - 50) * 1.2.
Proof.
  unfold seatX. cbv zeta.
  unfold Z.sub. rewrite !inject_Z_plus, inject_Z_opp.
  change (inject_Z 1) with 1. reflexivity.
Qed.

Lemma seatX_symmetric (n k : nat) :
  (k < n)%nat ->
  seatX (Z.of_nat n) (Z.of_nat k) + seatX (Z.of_nat n) (Z.of_nat (n - 1 - k))
  == 100.
Proof.
  intros Hk. rewrite !seatX_formula.
  replace (n - 1 - k)%nat with (n - k - 1)%nat by lia.
  rewrite inject_nat_pred by lia.
  rewrite (Nat2Z.inj_sub n k) by lia.
  unfold Z.sub. rewrite inject_Z_plus, inject_Z_opp.
  pose proof (inject_nat_pos n ltac:(lia)) as Hn.
  field. lra.
Qed.

Lemma seatX_step (n k : nat) :
  seatX (Z.of_nat n) (Z.of_nat (S k)) - seatX (Z.of_nat n) (Z.of_nat k)
  == - (120 / (inject_Z (Z.of_nat n) + 1)).
Proof.
  rewrite !seatX_formula. rewrite Nat2Z.inj_succ. unfold Z.succ.
  rewrite inject_Z_plus. change (inject_Z 1) with 1.
  pose proof (inject_nat_nonneg n) as Hn.
  field. lra.
Qed.

Lemma seatX_decreasing (n k k' : nat) :
  (k < k')%nat ->
  seatX (Z.of_nat n) (Z.of_nat k') < seatX (Z.of_nat n) (Z.of_nat k).
Proof.
  intros Hk. induction Hk as [|m Hm IH].
  - pose proof (seatX_step n k) as Hs.
    pose proof (inject_nat_nonneg n) as Hn.
    assert (0 < 120 / (inject_Z (Z.of_nat n) + 1)).
    { apply Qlt_shift_div_l; lra. }
    lra.
  - pose proof (seatX_step n m) as Hs.
    pose proof (inject_nat_nonneg n) as Hn.
    assert (0 < 120 / (inject_Z (Z.of_nat n) + 1)).
    { apply Qlt_shift_div_l; lra. }
    lra.
Qed.

(** *** The layout claims *)

Lemma calcPositions_y_range nm (ns : list nat) p :
  (2 <= length ns)%nat ->
  p ∈ calcPositions (formationOf nm ns) -> 10 <= py p <= 90.
Proof.
  intros Hlen Hp. unfold calcPositions in Hp.
  apply list_elem_of_join in Hp as (blk & Hin & Hblk).
  apply list_elem_of_lookup in Hblk as (i & Hi).
  rewrite list_lookup_imap in Hi.
  destruct (lines (formationOf nm ns) !! i) as [c|] eqn:Hc; [|discriminate].
  injection Hi as <-.
  assert (Hlt : (i < length ns)%nat).
  { apply lookup_lt_Some in Hc. simpl in Hc. now rewrite length_map in Hc. }
  rewrite length_map in Hin.
  destruct c as [|n]; simpl in Hin; [now apply elem_of_nil in Hin|].
  change (map ?f ?l) with (f <$> l) in Hin.
  apply list_elem_of_fmap in Hin as (k & -> & _). simpl.
  now apply yForLine_bounds.
Qed.

(** C1. For a formation of at least two lines, [calcPositions] returns
    [sum(lines)] positions; every seat of line [i] has the line's [y]; line 0
    is at the baseline [y = 90], the last line at [y = 10], no seat is
    outside [[10, 90]], and the line [y] strictly decreases with the line
    index. For ["4-4-2"], [[1,4,4,2]], there are 11 positions, seat 0 at
    [y = 90] and seats 9 and 10 at [y = 10]. *)
Theorem calcPositions_rows (nm : string) (ns : list nat)
    (Hlen : (2 <= length ns)%nat) :
  let f := formationOf nm ns in
  let len := length ns in
  length (calcPositions f) = sum_list ns
  /\ (forall i n k, ns !! i = Some n -> (k < n)%nat ->
        exists p, calcPositions f !! (lineStart ns i + k)%nat = Some p
                  /\ py p = yForLine len i)
  /\ yForLine len 0 == 90
  /\ yForLine len (len - 1) == 10
  /\ (forall i j, (i < j)%nat -> (j < len)%nat ->
        yForLine len j < yForLine len i)
  /\ (forall p, p ∈ calcPositions f -> 10 <= py p <= 90)
  /\ (let r := calcPositions (formationOf "4-4-2" [1; 4; 4; 2]%nat) in
      length r = 11%nat
      /\ (exists p0 p9 p10,
            r !! 0%nat = Some p0 /\ r !! 9%nat = Some p9
            /\ r !! 10%nat = Some p10
            /\ py p0 == 90 /\ py p9 == 10 /\ py p10 == 10)
      /\ (forall p, p ∈ r -> 10 <= py p <= 90)).
Proof.
  intros f len.
  split; [|split; [|split; [|split; [|split; [|split]]]]].
  - unfold f. rewrite length_calcPositions, loopCount_formationOf. reflexivity.
  - intros i n k Hi Hk. eexists. split.
    + unfold f. apply calcPositions_seat; eassumption.
    + reflexivity.
  - rewrite yForLine_goalkeeper. reflexivity.
  - now apply yForLine_last.
  - intros i j Hij _. now apply yForLine_decreasing.
  - intros p. now apply (calcPositions_y_range nm ns).
  - split; [reflexivity|]. split.
    + do 3 eexists.
      split; [reflexivity|]. split; [reflexivity|]. split; [reflexivity|].
      cbn [py]. split; [|split]; vm_compute; reflexivity.
    + intros p. apply (calcPositions_y_range "4-4-2" [1; 4; 4; 2]%nat p).
      simpl. lia.
Qed.

Lemma calcPositions_rows_witness :
  (2 <= length [1; 4; 3; 3]%nat)%nat
  /\ length (Layout.calcPositions (formationOf "4-3-3" [1; 4; 3; 3]%nat))
     = 11%nat.
Proof.
  assert (H : (2 <= length [1; 4; 3; 3]%nat)%nat) by (simpl; lia).
  split; [exact H|].
  exact (proj1 (calcPositions_rows "4-3-3" [1; 4; 3; 3]%nat H)).
Defined.

(** *** The same coordinates on doubles *)

Lemma Doubles_calcPositions_seat (ns : list nat) i n k :
  ns !! i = Some n -> (k < n)%nat ->
  Doubles.calcPositions ns !! (lineStart ns i + k)%nat
  = Some (Doubles.mkPosition (Doubles.seatX n k)
                             (Doubles.yForLine (length ns) i)).
Proof.
  intros Hi Hk. unfold Doubles.calcPositions, lineStart.
  rewrite <- (map_id (take i ns)).
  apply (lookup_join_imap _ id _ i n).
  - intros j a. now rewrite length_map, length_seq.
  - exact Hi.
  - change (map ?g ?l) with (g <$> l).
    now rewrite list_lookup_fmap, lookup_seq_lt by lia.
Qed.

(** Every seat of every line of up to a hundred seats passes [lineChecks]. *)
Lemma lineChecks_lines_to_100 :
  forallb (fun n => forallb (Doubles.lineChecks n) (seq 0 n)) (seq 0 101)
  = true.
Proof. vm_compute. reflexivity. Qed.

Lemma lineChecks_seat (n k : nat) :
  (k < n)%nat -> (n <= 100)%nat -> Doubles.lineChecks n k = true.
Proof.
  intros Hk Hn. pose proof lineChecks_lines_to_100 as H.
  rewrite List.forallb_forall in H.
  specialize (H n ltac:(apply List.in_seq; lia)).
  rewrite List.forallb_forall in H. apply H, List.in_seq. lia.
Qed.

(** C6, as stated, fails on the doubles the program computes. The two
    forwards of a 4-4-2 are at [x = 69.99999999999999] and
    [x = 29.999999999999996], which add up to 99.99999999999999 and not to
    100; the first two steps between the five defenders of a 5-4-1 are two
    different doubles. *)
Lemma line_x_not_exact :
  ~ Doubles.symmetricLine [1; 4; 4; 2]%nat 3
  /\ ~ Doubles.evenlySpacedLine [1; 5; 4; 1]%nat 1.
Proof.
  split; intros H.
  - pose proof (H 2%nat 0%nat _ _ eq_refl ltac:(lia)
                  (Doubles_calcPositions_seat [1; 4; 4; 2]%nat 3 2 0
                     eq_refl ltac:(lia))
                  (Doubles_calcPositions_seat [1; 4; 4; 2]%nat 3 2 1
                     eq_refl ltac:(lia))) as E.
    apply (f_equal (fun v => PrimFloat.eqb v (Doubles.ofNat 100))) in E.
    vm_compute in E. discriminate E.
  - pose proof (H 5%nat 0%nat _ _ _ eq_refl ltac:(lia)
                  (Doubles_calcPositions_seat [1; 5; 4; 1]%nat 1 5 0
                     eq_refl ltac:(lia))
                  (Doubles_calcPositions_seat [1; 5; 4; 1]%nat 1 5 1
                     eq_refl ltac:(lia))
                  (Doubles_calcPositions_seat [1; 5; 4; 1]%nat 1 5 2
                     eq_refl ltac:(lia))) as E.
    apply (f_equal (PrimFloat.eqb (PrimFloat.sub (Doubles.seatX 5 0)
                                                 (Doubles.seatX 5 1)))) in E.
    vm_compute in E. discriminate E.
Qed.

(** C6, amended. Within a line of [n] seats the [x] coordinates strictly
    decrease with the roster index [k], so index 0 of the line has the
    largest [x]. On the doubles the program computes, for every line of up
    to a hundred seats: seat [k] and seat [n-1-k] add up to 100, seat [k] is 1.2
    times as far from [x = 50] as the evenly spaced [(n-k)/(n+1) * 100], and
    the step to the next seat is [120/(n+1)], each to within [2^-40] and not
    exactly; and the next seat is strictly to the left. *)
Theorem line_x_coordinates (nm : string) (ns : list nat) (i n k : nat)
    (Hi : ns !! i = Some n) (Hk : (k < n)%nat) :
  let f := formationOf nm ns in
  let at_ (j : nat) := calcPositions f !! (lineStart ns i + j)%nat in
  let double_at (j : nat) :=
    Doubles.calcPositions ns !! (lineStart ns i + j)%nat in
  (exists p,
     at_ k = Some p
     /\ (forall k' p', (k < k')%nat -> (k' < n)%nat -> at_ k' = Some p' ->
           px p' < px p)
     /\ (forall p0, at_ 0%nat = Some p0 -> px p <= px p0))
  /\ ((n <= 100)%nat ->
      exists d d',
        double_at k = Some d /\ double_at (n - 1 - k)%nat = Some d'
        /\ Doubles.mirrored (Doubles.x d) (Doubles.x d') = true
        /\ Doubles.widened n k (Doubles.x d) = true
        /\ (forall d1, (S k < n)%nat -> double_at (S k) = Some d1 ->
              Doubles.stepped n (Doubles.x d) (Doubles.x d1) = true
              /\ Doubles.leftOf (Doubles.x d1) (Doubles.x d) = true)).
Proof.
  intros f at_ double_at. unfold at_, double_at, f. split.
  - eexists. split; [apply calcPositions_seat; eassumption|].
    cbn [px py]. split.
    + intros k' p' Hkk Hlt Hp'.
      rewrite (calcPositions_seat nm ns i n k' Hi Hlt) in Hp'.
      injection Hp' as <-. cbn [px]. now apply seatX_decreasing.
    + intros p0 Hp0.
      rewrite (calcPositions_seat nm ns i n 0 Hi ltac:(lia)) in Hp0.
      injection Hp0 as <-. cbn [px]. destruct k as [|k]; [apply Qle_refl|].
      apply Qlt_le_weak, seatX_decreasing. lia.
  - intros Hn. pose proof (lineChecks_seat n k Hk Hn) as H.
    unfold Doubles.lineChecks in H.
    apply andb_prop in H as [H Hstep]. apply andb_prop in H as [Hsym Hwide].
    do 2 eexists.
    split; [apply Doubles_calcPositions_seat; [exact Hi | exact Hk]|].
    split; [apply Doubles_calcPositions_seat; [exact Hi | lia]|].
    cbn [Doubles.x].
    split; [exact Hsym|]. split; [exact Hwide|].
    intros d1 Hlt Hd1.
    rewrite (Doubles_calcPositions_seat ns i n (S k) Hi Hlt) in Hd1.
    injection Hd1 as <-. cbn [Doubles.x].
    apply Nat.ltb_lt in Hlt. rewrite Hlt in Hstep.
    apply andb_prop in Hstep. exact Hstep.
Qed.

Lemma line_x_coordinates_witness :
  [1; 4; 4; 2]%nat !! 2%nat = Some 4%nat /\ (0 < 4)%nat /\ (4 <= 100)%nat
  /\ exists d d',
       Doubles.calcPositions [1; 4; 4; 2]%nat !! 5%nat = Some d
       /\ Doubles.calcPositions [1; 4; 4; 2]%nat !! 8%nat = Some d'
       /\ Doubles.mirrored (Doubles.x d) (Doubles.x d') = true.
Proof.
  split; [reflexivity|]. split; [lia|]. split; [lia|].
  destruct (proj2 (line_x_coordinates "4-4-2" [1; 4; 4; 2]%nat 2 4 0
                     eq_refl ltac:(lia))
                  ltac:(lia)) as (d & d' & Hd & Hd' & Hm & _).
  exists d, d'. split; [exact Hd|]. split; [exact Hd'|]. exact Hm.
Defined.

End LayoutFacts.

(** ** Proofs: override resolution and mode transform *)

Module OverridesFacts.
Import Layout Overrides Session LayoutFacts.

(** [filter(Boolean)] keeps the indices of a prefix without [null]. *)
Lemma omap_id_prefix {X} (l : list (option X)) (i : nat) :
  (forall j, (j <= i)%nat -> (j < length l)%nat ->
             exists y, l !! j = Some (Some y)) ->
  omap id l !! i = l !! i ≫= id.
Proof.
  revert i. induction l as [|o l IH]; intros i Hpre; [reflexivity|].
  destruct (Hpre 0%nat ltac:(lia) ltac:(simpl; lia)) as [x Hx].
  simpl in Hx. injection Hx as ->. simpl.
  destruct i as [|i]; [reflexivity|]. simpl. apply IH.
  intros j Hj Hlen. apply (Hpre (S j)); simpl; lia.
Qed.

Lemma effectivePosition_some ov (positions : list Position) i d :
  positions !! i = Some d ->
  effectivePosition ov positions i
  = Some (match ov !! i with Some o => o | None => d end).
Proof. intros H. unfold effectivePosition. now rewrite H. Qed.

(** The payload entry at index [i] is the entry computed for seat [i]. *)
Lemma teamPositions_lookup side vm (t : Team) (i : nat) player :
  players t !! i = Some player ->
  (i < length (calcPositions (formation t)))%nat ->
  teamPositions side vm t !! i
  = broadcastSeat side vm (overrides t) (calcPositions (formation t)) i player.
Proof.
  intros Hp Hi. unfold teamPositions. rewrite omap_id_prefix.
  - rewrite list_lookup_imap, Hp. simpl.
    now destruct (broadcastSeat _ _ _ _ _ _).
  - intros j Hj Hlen. rewrite length_imap in Hlen.
    rewrite list_lookup_imap.
    destruct (lookup_lt_is_Some_2 (players t) j Hlen) as [q ->]. simpl.
    destruct (lookup_lt_is_Some_2 (calcPositions (formation t)) j
                ltac:(lia)) as [d Hd].
    unfold broadcastSeat. rewrite (effectivePosition_some _ _ _ _ Hd). eauto.
Qed.

(** C5. For a seat index within the formation's seat count, the position
    used is the stored override when there is one and
    [calcPositions(formation)[index]] otherwise: that is the position a
    split-mode seat is drawn at, the position the vertical projection is
    applied to, and the position the broadcast entry projects and rounds. *)
Theorem effectivePosition_override_or_default
    (f : Formation) (ov : gmap nat Position) (idx : nat)
    (Hidx : (idx < sum_list (map loopCount (lines f)))%nat) :
  exists d,
    calcPositions f !! idx = Some d
    /\ let pos := match ov !! idx with Some o => o | None => d end in
       effectivePosition ov (calcPositions f) idx = Some pos
       /\ (forall side,
             renderPosition side false ov (calcPositions f) idx = Some pos
             /\ renderPosition side true ov (calcPositions f) idx
                = Some (mapVertical side pos))
       /\ (forall side vm player,
             exists seat,
               broadcastSeat side vm ov (calcPositions f) idx player
               = Some seat
               /\ seat_x seat
                  = round2 (px (if vm then mapVertical side pos else pos))
               /\ seat_y seat
                  = round2 (py (if vm then mapVertical side pos else pos)))
       /\ (forall side vm t player,
             formation t = f -> overrides t = ov ->
             players t !! idx = Some player ->
             teamPositions side vm t !! idx
             = broadcastSeat side vm ov (calcPositions f) idx player).
Proof.
  rewrite <- length_calcPositions in Hidx.
  destruct (lookup_lt_is_Some_2 _ _ Hidx) as [d Hd].
  exists d. split; [exact Hd|]. cbv zeta.
  pose proof (effectivePosition_some ov _ _ _ Hd) as He.
  split; [exact He|]. split; [|split].
  - intros side. unfold renderPosition. rewrite He. split; reflexivity.
  - intros side vm player. unfold broadcastSeat. rewrite He.
    eexists. split; [reflexivity|]. split; reflexivity.
  - intros side vm t player <- <- Hp. now apply teamPositions_lookup.
Qed.

Lemma effectivePosition_override_or_default_witness :
  (2 < sum_list (map loopCount (lines (formationOf "4-3-3" [1; 4; 3; 3]%nat))))%nat
  /\ effectivePosition {[ 2%nat := mkPosition 40 60 ]}
       (calcPositions (formationOf "4-3-3" [1; 4; 3; 3]%nat)) 2
     = Some (mkPosition 40 60).
Proof.
  assert (H : (2 < sum_list (map loopCount
                 (lines (formationOf "4-3-3" [1; 4; 3; 3]%nat))))%nat)
    by (vm_compute; lia).
  split; [exact H|].
  destruct (effectivePosition_override_or_default
              (formationOf "4-3-3" [1; 4; 3; 3]%nat)
              {[ 2%nat := mkPosition 40 60 ]} 2 H) as (d & _ & He & _).
  exact He.
Defined.

(** *** Mode round trip *)

Local Open Scope Q_scope.

Lemma clamp01_within (a b : Q) : a == b -> 0 <= b <= 100 -> clamp01 a == b.
Proof.
  intros E [H0 H1]. unfold clamp01.
  rewrite (Q.min_r 100 a) by lra. rewrite Q.max_r by lra. exact E.
Qed.

(** What the round trip computes, for both teams: [x] keeps the widening of
    the projection and [y] comes back shifted by 4. *)
Lemma roundTrip_formula (side : Side) (p : Position) :
  0 <= py p <= 96 ->
  px (roundTrip side p) == 50 + (px p - 50) * 1.15
  /\ py (roundTrip side p) == py p + 4.
Proof.
  intros [H0 H1].
  destruct side; unfold roundTrip, dragStore, mapVertical, mapVerticalA,
    mapVerticalB; cbn [px py]; (split; [reflexivity|]);
    (apply clamp01_within; [field | lra]).
Qed.

(** C2, on the code. The position [(60, 50)], projected to the combined
    pitch and mapped back by the drag handlers, comes back as [(61.5, 54)]
    for team A and for team B, so both axes are more than [1e-6] away from
    the original. *)
Theorem roundTrip_drifts :
  let p := mkPosition 60 50 in
  (px (roundTrip A p) == 61.5 /\ py (roundTrip A p) == 54)
  /\ (px (roundTrip B p) == 61.5 /\ py (roundTrip B p) == 54)
  /\ (forall side,
        beyond_tolerance (px (roundTrip side p)) (px p)
        /\ beyond_tolerance (py (roundTrip side p)) (py p)).
Proof.
  cbv zeta. split; [|split].
  - split; vm_compute; reflexivity.
  - split; vm_compute; reflexivity.
  - intros side. destruct side; split; vm_compute; reflexivity.
Qed.

End OverridesFacts.

(** ** Proofs: formation change and team swap *)

Module EditorsFacts.
Import Layout Overrides Session Editors Reconciler Snapshot Examples.

(** C7, as stated, fails. In [nudged] seat 0 of team A and seat 1 of team B
    carry an override; after [handleSwapTeams] team A's entry sits in team
    B's map, and after a formation change of team A team B's entry is still
    in team B's map. *)
Lemma overrides_survive_swap_and_other_team :
  ~ overridesDestroyed nudged (handleSwapTeams nudged)
  /\ ~ overridesDestroyed nudged (updatePlayersForFormation A f442 nudged).
Proof.
  split; intros H.
  - apply (H A 0%nat (mkPosition 10 10) eq_refl B). reflexivity.
  - apply (H B 1%nat (mkPosition 20 20) eq_refl B). reflexivity.
Qed.

(** C7, amended. The operations that give a team a new formation, and the
    team swap, treat the override maps as follows.  A formation chosen in
    the formation editor ([updatePlayersForFormation],
    [updatePlayersForFormationB]) empties that team's map and leaves the
    other team's map as it was.  A lineup from the match feed replaces both
    formations; loaded by the user it empties both maps, processed as an
    auto-refresh tick it keeps both.  A snapshot replaces a formation when
    it carries one and an override map when it carries one, independently of
    each other.  A team swap exchanges the two maps. *)
Theorem overrides_after_formation_change_and_swap
    (st : App) (side : Side) (f : Formation)
    (fixtureId : Z) (homeTeam awayTeam : FeedTeam) (closure : Closure)
    (homeLineup awayLineup : Lineup) (rest : list Lineup)
    (latestFixture : Fixture) (others : list Fixture)
    (data : Data) (current : Fields) :
  let edited := updatePlayersForFormation side f st in
  let fetched := Fetched (Some (homeLineup :: awayLineup :: rest))
                         (latestFixture :: others) in
  let user :=
    loadMatchLineup fixtureId homeTeam awayTeam false closure fetched st in
  let auto :=
    loadMatchLineup fixtureId homeTeam awayTeam true closure fetched st in
  let loaded := applySnapshot (Some data) current in
  (formation (team side edited) = f
   /\ overrides (team side edited) = ∅
   /\ overrides (team (other side) edited) = overrides (team (other side) st))
  /\ (formation (teamA user) = lineupFormation homeLineup
      /\ formation (teamB user) = lineupFormation awayLineup
      /\ overrides (teamA user) = ∅ /\ overrides (teamB user) = ∅)
  /\ (formation (teamA auto) = lineupFormation homeLineup
      /\ formation (teamB auto) = lineupFormation awayLineup
      /\ overrides (teamA auto) = overrides (teamA st)
      /\ overrides (teamB auto) = overrides (teamB st))
  /\ (s_formation loaded = default (s_formation current) (d_formation data)
      /\ s_overrides loaded = default (s_overrides current) (d_overrides data)
      /\ s_formationB loaded
         = default (s_formationB current) (d_formationB data)
      /\ s_overridesB loaded
         = default (s_overridesB current) (d_overridesB data))
  /\ overrides (teamA (handleSwapTeams st)) = overrides (teamB st)
  /\ overrides (teamB (handleSwapTeams st)) = overrides (teamA st).
Proof.
  cbv zeta. split; [destruct side; repeat split; reflexivity|].
  repeat split; reflexivity.
Qed.

End EditorsFacts.

(** ** Proofs: drag controller *)

Module DragFacts.
Import Layout Overrides Session Drag Examples.

Local Open Scope Q_scope.

Lemma exceedsThreshold_spec (dx dy : Q) :
  exceedsThreshold dx dy = true <-> 36 < dx * dx + dy * dy.
Proof.
  unfold exceedsThreshold, MOVEMENT_THRESHOLD. rewrite negb_true_iff.
  destruct (Qle_bool (dx * dx + dy * dy) (6 * 6)) eqn:E.
  - apply Qle_bool_iff in E. split; [discriminate|]. intros H. lra.
  - split; [intros _|reflexivity].
    apply Qnot_le_lt. intros H.
    assert (E' : Qle_bool (dx * dx + dy * dy) (6 * 6) = true)
      by (apply Qle_bool_iff; lra).
    congruence.
Qed.

Lemma noteMove_frame dr e :
  index (noteMove dr e) = index dr
  /\ startX (noteMove dr e) = startX dr
  /\ startY (noteMove dr e) = startY dr
  /\ pointerOffsetX (noteMove dr e) = pointerOffsetX dr
  /\ pointerOffsetY (noteMove dr e) = pointerOffsetY dr
  /\ moved (noteMove dr e)
     = moved dr
       || exceedsThreshold (clientX e - startX dr) (clientY e - startY dr).
Proof.
  unfold noteMove. destruct (exceedsThreshold _ _); cbn.
  - now rewrite orb_true_r.
  - now rewrite orb_false_r.
Qed.

Lemma onPointerDown_dragging side down idx st :
  onPointerDown side down idx st
  = dragging side (pressed idx down) (overrides (team side st)) st.
Proof.
  destruct st as [[] [] ? ? ? ? ? ? ? ? ? ? ?], side; reflexivity.
Qed.

(** One move event while pressed, with the field element in place. *)
Lemma onPointerMove_dragging side e dr m st rect :
  fieldOf side st = Some rect ->
  onPointerMove side e (dragging side dr m st)
  = dragging side (noteMove dr e)
      (<[index dr :=
           dragStore side (verticalMode st)
             (percentOf rect (clientX e - pointerOffsetX dr)
                             (clientY e - pointerOffsetY dr))]> m) st.
Proof.
  intros Hf.
  destruct (noteMove_frame dr e) as (Hi & _ & _ & Hx & Hy & _).
  destruct st as [[] [] [] [] fr frB ? ? vm ? ? ? ?], side;
    unfold fieldOf in Hf; cbn in Hf;
    unfold onPointerMove, dragging, setOverrides, setDragging, toPercent;
    cbn; fold (noteMove dr e); rewrite Hi, Hx, Hy.
  - destruct fr as [r|]; [|discriminate]. injection Hf as ->. reflexivity.
  - destruct vm.
    + destruct fr as [r|]; [|discriminate]. injection Hf as ->. reflexivity.
    + destruct frB as [rB|].
      * injection Hf as ->. reflexivity.
      * destruct fr as [r|]; [|discriminate]. injection Hf as ->.
        reflexivity.
Qed.

(** All the moves of a gesture. *)
Lemma moves_dragging side moves rect st (Hf : fieldOf side st = Some rect) :
  forall dr m,
  exists dr',
    fold_left (fun s e => onPointerMove side e s) moves (dragging side dr m st)
    = dragging side dr'
        (fold_left
           (fun m e =>
              <[index dr :=
                  dragStore side (verticalMode st)
                    (percentOf rect (clientX e - pointerOffsetX dr)
                                    (clientY e - pointerOffsetY dr))]> m)
           moves m) st
    /\ index dr' = index dr
    /\ moved dr'
       = moved dr
         || existsb (fun e => exceedsThreshold (clientX e - startX dr)
                                               (clientY e - startY dr)) moves.
Proof.
  induction moves as [|e moves IH]; intros dr m.
  - exists dr. cbn. now rewrite orb_false_r.
  - cbn [fold_left existsb].
    rewrite (onPointerMove_dragging side e dr m st rect Hf).
    destruct (noteMove_frame dr e) as (Hi & Hsx & Hsy & Hx & Hy & Hm).
    destruct (IH (noteMove dr e)
                 (<[index dr :=
                      dragStore side (verticalMode st)
                        (percentOf rect (clientX e - pointerOffsetX dr)
                                        (clientY e - pointerOffsetY dr))]> m))
      as (dr' & Hfold & Hidx & Hmoved).
    exists dr'. rewrite Hfold, Hi, Hsx, Hsy, Hx, Hy in *.
    split; [reflexivity|]. split; [exact Hidx|].
    rewrite Hmoved, Hm. now rewrite orb_assoc.
Qed.

Lemma existsb_exceeds down idx moves :
  existsb (fun e => exceedsThreshold (clientX e - startX (pressed idx down))
                                     (clientY e - startY (pressed idx down)))
          moves = true
  <-> Exists (fun e => 36 < displacementSq down e) moves.
Proof.
  rewrite existsb_exists, Exists_exists. split.
  - intros (e & Hin & He). exists e. split; [now apply list_elem_of_In|].
    now apply exceedsThreshold_spec in He.
  - intros (e & Hin & He). exists e. split; [now apply list_elem_of_In|].
    now apply exceedsThreshold_spec.
Qed.

(** Release after the moves. *)
Lemma onPointerUp_dragging side dr m st :
  let st' := onPointerUp side (dragging side dr m st) in
  overrides (team side st') = m
  /\ overrides (team (other side) st') = overrides (team (other side) st)
  /\ (moved dr = false ->
      singleClickTimerRef (pointer side st')
      = Some (mkTimer 250 (HandlePlayerClick side (index dr)))
      /\ broadcastTimerRef st' = broadcastTimerRef st)
  /\ (moved dr = true ->
      singleClickTimerRef (pointer side st')
      = singleClickTimerRef (pointer side st)
      /\ exists args,
           broadcastTimerRef st' = Some (mkTimer 100 (Broadcast args))).
Proof.
  destruct st as [[] [] [] [] ? ? ? ? ? ? ? ? ?], side, dr as [? ? ? [] ? ?];
    cbn; repeat split; try discriminate; eauto.
Qed.

(** A double-click clears the pending single click and selects the seat. *)
Lemma onDoubleClick_selects side idx s :
  singleClickTimerRef (pointer side (onDoubleClick side idx s)) = None
  /\ selectedPlayer (pointer side (onDoubleClick side idx s)) = Some idx.
Proof.
  destruct s as [? ? [] [] ? ? ? ? ? ? ? ? ?], side; split; reflexivity.
Qed.

(** In combined-vertical mode a seat overridden to (60, 50) is drawn at
    (61.5, 27); pressing on the centre of its card and reporting one move
    without any displacement rewrites the override to (61.5, 54). *)
Lemma drag_in_place_in_vertical_mode :
  exists drawn stored,
    renderPosition A true (overrides (teamA verticalApp))
      (calcPositions (formation (teamA verticalApp))) 0 = Some drawn
    /\ px drawn == 61.5 /\ py drawn == 27
    /\ overrides (teamA (gesture A 0 onCard [onCard] verticalApp)) !! 0%nat
       = Some stored
    /\ px stored == 61.5 /\ py stored == 54.
Proof.
  do 2 eexists.
  split; [vm_compute; reflexivity|].
  split; [vm_compute; reflexivity|]. split; [vm_compute; reflexivity|].
  split; [vm_compute; reflexivity|].
  split; vm_compute; reflexivity.
Qed.

(** C3, as stated, fails twice. A press at (250, 630) followed by one move
    3 px to the right and a release writes the seat's override although the
    displacement stayed below 6 px; the same press followed by one move
    exactly 6 px to the right schedules the single click although the
    displacement reached 6 px. *)
Lemma threshold_counterexample :
  ~ thresholdClaim A 0 (pressAt 250 630) [pressAt 253 630] initialApp
  /\ ~ thresholdClaim A 0 (pressAt 250 630) [pressAt 256 630] initialApp.
Proof.
  split; intros [Hbelow Hfrom].
  - destruct Hbelow as [Hsame _].
    + repeat constructor.
    + apply (f_equal (fun m => m !! 0%nat)) in Hsame. discriminate Hsame.
  - destruct Hfrom as [_ Hclick].
    + constructor. vm_compute. discriminate.
    + discriminate Hclick.
Qed.

(** C3, amended. With the field element in place, every move event between
    press and release writes the pressed seat's override, whatever the
    displacement, and nothing else touches either override map: a gesture
    without moves leaves the store as it was, and after a gesture with moves
    the seat holds the position of the last move. At release the single
    click is scheduled after 250 ms exactly when no move was farther than
    6 px from the press point; when some move was farther than 6 px, no
    click is scheduled and a broadcast is scheduled after 100 ms. A
    double-click on the seat cancels a pending single click and selects the
    seat at once. *)
Theorem gesture_click_or_drag (side : Side) (idx : nat)
    (down : PointerEvent) (moves : list PointerEvent) (st : App)
    (rect : DOMRect) (Hfield : fieldOf side st = Some rect) :
  let st' := gesture side idx down moves st in
  overrides (team side st')
  = fold_left
      (fun m e => <[idx := storedAt side (verticalMode st) rect down e]> m)
      moves (overrides (team side st))
  /\ overrides (team (other side) st') = overrides (team (other side) st)
  /\ (moves = [] -> overrides (team side st') = overrides (team side st))
  /\ (forall e, last moves = Some e ->
        overrides (team side st') !! idx
        = Some (storedAt side (verticalMode st) rect down e))
  /\ (Forall (fun e => displacementSq down e <= 36) moves ->
        singleClickTimerRef (pointer side st')
        = Some (mkTimer 250 (HandlePlayerClick side idx))
        /\ broadcastTimerRef st' = broadcastTimerRef st)
  /\ (Exists (fun e => 36 < displacementSq down e) moves ->
        singleClickTimerRef (pointer side st')
        = singleClickTimerRef (pointer side st)
        /\ (exists args,
              broadcastTimerRef st' = Some (mkTimer 100 (Broadcast args)))
        /\ is_Some (overrides (team side st') !! idx))
  /\ (singleClickTimerRef (pointer side (onDoubleClick side idx st')) = None
      /\ selectedPlayer (pointer side (onDoubleClick side idx st'))
         = Some idx).
Proof.
  intros st'. unfold st', gesture.
  rewrite onPointerDown_dragging.
  destruct (moves_dragging side moves rect st Hfield (pressed idx down)
              (overrides (team side st))) as (dr' & -> & Hidx & Hmoved).
  cbn [pressed index moved pointerOffsetX pointerOffsetY orb] in Hidx, Hmoved.
  destruct (onPointerUp_dragging side dr'
              (fold_left
                 (fun m e =>
                    <[index (pressed idx down) :=
                        dragStore side (verticalMode st)
                          (percentOf rect
                             (clientX e - pointerOffsetX (pressed idx down))
                             (clientY e - pointerOffsetY (pressed idx down)))]>
                      m)
                 moves (overrides (team side st))) st)
    as (Hov & Hother & Hclick & Hdrag).
  cbv zeta in Hov, Hother, Hclick, Hdrag. rewrite Hidx in Hclick.
  assert (Hlast : forall e, last moves = Some e ->
            fold_left
              (fun m e =>
                 <[idx := storedAt side (verticalMode st) rect down e]> m)
              moves (overrides (team side st)) !! idx
            = Some (storedAt side (verticalMode st) rect down e)).
  { intros e He. apply last_Some in He as (l' & ->).
    rewrite fold_left_app. cbn [fold_left]. apply lookup_insert_eq. }
  match type of Hov with
  | ?lhs = _ =>
      assert (Hov' : lhs
                = fold_left
                    (fun m e =>
                       <[idx := storedAt side (verticalMode st) rect down e]> m)
                    moves (overrides (team side st))) by exact Hov
  end.
  clear Hov.
  split; [exact Hov'|]. split; [exact Hother|].
  split; [intros ->; exact Hov'|].
  split; [intros e He; rewrite Hov'; now apply Hlast|].
  split; [|split; [|apply onDoubleClick_selects]].
  - intros Hall. apply Hclick. rewrite Hmoved.
    apply not_true_is_false. intros Hex.
    apply (existsb_exceeds down idx) in Hex.
    apply Exists_exists in Hex as (e & Hin & He).
    rewrite Forall_forall in Hall. specialize (Hall e Hin). lra.
  - intros Hex. pose proof Hex as Hex'.
    apply (existsb_exceeds down idx) in Hex'. rewrite <- Hmoved in Hex'.
    destruct (Hdrag Hex') as (Hc & Hb).
    split; [exact Hc|]. split; [exact Hb|].
    rewrite Hov'.
    destruct (last moves) as [e|] eqn:El.
    + rewrite (Hlast e eq_refl). eauto.
    + apply last_None in El. subst moves. now apply Exists_nil in Hex.
Qed.

Lemma gesture_click_or_drag_witness :
  fieldOf A initialApp = Some pitch
  /\ overrides (team A (gesture A 0 (pressAt 250 630) [pressAt 253 630]
                          initialApp)) !! 0%nat
     = Some (storedAt A false pitch (pressAt 250 630) (pressAt 253 630)).
Proof.
  split; [reflexivity|].
  exact (proj1 (proj2 (proj2 (proj2
           (gesture_click_or_drag A 0 (pressAt 250 630) [pressAt 253 630]
              initialApp pitch eq_refl))))
           (pressAt 253 630) eq_refl).
Defined.

End DragFacts.

(** ** Proofs: match-feed reconciler *)

Module ReconcilerFacts.
Import Layout Overrides Session Editors Reconciler Examples.

(** *** Merge policy *)

(** C4. A successful feed update processed as an auto-refresh tick leaves
    both override maps of the state exactly as they were, and processed as a
    user-initiated load empties both; either way the rosters and the scores
    are the ones computed from the feed, in the state and in the broadcast
    that is scheduled, and that broadcast carries the feed's status.  The
    broadcast of a tick is sent with the override maps and the mode its
    closure captured, the one of a user load with empty maps. *)
Theorem loadMatchLineup_merge_policy
    (fixtureId : Z) (homeTeam awayTeam : FeedTeam) (closure : Closure)
    (homeLineup awayLineup : Lineup) (rest : list Lineup)
    (latestFixture : Fixture) (others : list Fixture) (st : App) :
  let fetched := Fetched (Some (homeLineup :: awayLineup :: rest))
                         (latestFixture :: others) in
  let auto :=
    loadMatchLineup fixtureId homeTeam awayTeam true closure fetched st in
  let user :=
    loadMatchLineup fixtureId homeTeam awayTeam false closure fetched st in
  (overrides (teamA auto) = overrides (teamA st)
   /\ overrides (teamB auto) = overrides (teamB st))
  /\ (overrides (teamA user) = ∅ /\ overrides (teamB user) = ∅)
  /\ replacedFromFeed homeLineup awayLineup latestFixture
       (c_overrides closure) (c_overridesB closure) (c_verticalMode closure)
       auto
  /\ replacedFromFeed homeLineup awayLineup latestFixture
       ∅ ∅ (c_verticalMode closure) user.
Proof.
  cbv zeta. split; [split; reflexivity|]. split; [split; reflexivity|].
  split; unfold replacedFromFeed; cbn;
    (repeat (split; [reflexivity|]));
    eexists; (split; [apply last_snoc|]); repeat split.
Qed.

(** *** Goal attribution *)

Lemma isGoalOf_spec p ev : isGoalOf p ev = true <-> goalEventNamed p ev.
Proof.
  unfold isGoalOf, goalEventNamed, sameId.
  rewrite !andb_true_iff, orb_true_iff, negb_true_iff, !String.eqb_eq.
  rewrite <- not_true_iff_false, String.eqb_eq.
  destruct (fp_name p) as [pName|].
  - rewrite andb_true_iff, negb_true_iff, bool_decide_eq_true.
    rewrite <- not_true_iff_false, String.eqb_eq. tauto.
  - intuition discriminate.
Qed.

(** C8, as stated, fails. A roster player whose name is the empty string
    and a goal event of another identifier whose player name is also the
    empty string match by exact name, yet the player gets no goal. *)
Lemma goal_count_empty_name :
  let p := mkFeedPlayer (Some 1%Z) (Some EmptyString) (Some 9%Z) in
  let ev := mkFeedEvent "Goal" "Normal Goal" (Some 2%Z) (Some EmptyString) in
  goalEventFor p ev
  /\ goals (mapPlayer [ev] 0 p) = Some 0%nat
  /\ goals (mapPlayer [ev] 0 p)
     <> Some (length (filter (goalEventFor p) [ev])).
Proof.
  cbv zeta. split; [|split].
  - split; [reflexivity|]. split; [discriminate|]. right. reflexivity.
  - vm_compute. reflexivity.
  - vm_compute. discriminate.
Qed.

(** C8, amended. The goal count of a roster player is the number of events
    of type ['Goal'] whose detail is not ['Missed Penalty'] and whose player
    has the player's identifier or, when the roster name is present and not
    empty, exactly the player's name. One goal event for identifier 987
    gives 1, and a further ['Missed Penalty'] event for 987 leaves it 1. *)
Theorem mapPlayer_goal_count
    (evs : list FeedEvent) (idx : nat) (p : FeedPlayer) :
  goals (mapPlayer evs idx p)
  = Some (length (filter (goalEventNamed p) evs))
  /\ (forall nm num nm1 nm2,
        let p987 := mkFeedPlayer (Some 987%Z) nm num in
        let goal := mkFeedEvent "Goal" "Normal Goal" (Some 987%Z) nm1 in
        let missed := mkFeedEvent "Goal" "Missed Penalty" (Some 987%Z) nm2 in
        goals (mapPlayer [goal] idx p987) = Some 1%nat
        /\ goals (mapPlayer [goal; missed] idx p987) = Some 1%nat).
Proof.
  split.
  - unfold mapPlayer. cbn [goals]. do 2 f_equal.
    apply list_filter_iff. intros ev. apply isGoalOf_spec.
  - intros nm num nm1 nm2. cbv zeta. split; reflexivity.
Qed.

(** *** Formation strings *)

Ltac each_digit d H :=
  unfold isDigit in H;
  do 10 (destruct d as [|d]; [reflexivity|]); lia.

Lemma digitValue_digitChar d :
  isDigit d -> digitValue (digitChar d) = Some (Z.of_nat d).
Proof. intros H. each_digit d H. Qed.

Lemma digitChar_not_dash d : isDigit d -> Ascii.eqb (digitChar d) "-" = false.
Proof. intros H. each_digit d H. Qed.

(** A string that starts with a digit has nothing for [parseInt] to skip. *)
Lemma parseInt_digit_first d rest :
  isDigit d ->
  parseInt (String (digitChar d) rest)
  = match parseDigits None (String (digitChar d) rest) with
    | None => NaN
    | Some v => Int (1 * v)
    end.
Proof. intros H. each_digit d H. Qed.

Lemma parseDigits_digits ds :
  Forall isDigit ds ->
  forall acc,
    parseDigits acc (digitsString ds)
    = match ds with
      | [] => acc
      | _ => Some (fold_left (fun a d => (10 * a + Z.of_nat d)%Z) ds
                             (default 0%Z acc))
      end.
Proof.
  induction 1 as [|d ds Hd Hds IH]; intros acc; [reflexivity|].
  cbn [digitsString fold_right parseDigits].
  rewrite (digitValue_digitChar d Hd).
  change (fold_right (fun d s => String (digitChar d) s) EmptyString ds)
    with (digitsString ds).
  rewrite IH. destruct ds; reflexivity.
Qed.

Lemma parseInt_numeral ds :
  isNumeral ds -> parseInt (digitsString ds) = Int (digitsValue ds).
Proof.
  intros [Hne Hall]. destruct ds as [|d ds]; [congruence|].
  pose proof (Forall_inv Hall) as Hd.
  change (digitsString (d :: ds)) with (String (digitChar d) (digitsString ds)).
  rewrite (parseInt_digit_first d _ Hd).
  change (String (digitChar d) (digitsString ds)) with (digitsString (d :: ds)).
  rewrite (parseDigits_digits _ Hall). cbn [default].
  unfold digitsValue. f_equal. lia.
Qed.

Lemma split_digits ds :
  Forall isDigit ds -> split "-" (digitsString ds) = [digitsString ds].
Proof.
  induction 1 as [|d ds Hd Hds IH]; [reflexivity|].
  change (digitsString (d :: ds)) with (String (digitChar d) (digitsString ds)).
  cbn [split]. rewrite (digitChar_not_dash d Hd), IH. reflexivity.
Qed.

Lemma split_digits_dash ds rest :
  Forall isDigit ds ->
  split "-" (digitsString ds +:+ String "-" rest)
  = digitsString ds :: split "-" rest.
Proof.
  induction 1 as [|d ds Hd Hds IH]; [reflexivity|].
  change (digitsString (d :: ds)) with (String (digitChar d) (digitsString ds)).
  change (String (digitChar d) (digitsString ds) +:+ String "-" rest)
    with (String (digitChar d) (digitsString ds +:+ String "-" rest)).
  cbn [split]. rewrite (digitChar_not_dash d Hd), IH. reflexivity.
Qed.

Lemma split_joinDash parts :
  Forall isNumeral parts -> parts <> [] ->
  split "-" (joinDash parts) = map digitsString parts.
Proof.
  induction 1 as [|ds parts [_ Hds] Hparts IH]; intros Hne; [congruence|].
  destruct parts as [|ds' parts].
  - cbn [joinDash map]. now apply split_digits.
  - change (joinDash (ds :: ds' :: parts))
      with (digitsString ds +:+ String "-" (joinDash (ds' :: parts))).
    rewrite (split_digits_dash _ _ Hds), IH by discriminate. reflexivity.
Qed.

Lemma joinDash_not_empty parts :
  Forall isNumeral parts -> parts <> [] ->
  String.eqb (joinDash parts) EmptyString = false.
Proof.
  intros Hall Hne. destruct parts as [|ds parts]; [congruence|].
  destruct (Forall_inv Hall) as [Hds _].
  destruct ds as [|d ds]; [congruence|].
  destruct parts; reflexivity.
Qed.

(** C9, as stated, fails. ["abc"] has no integer to parse, and
    [parseFormation] returns [[1, NaN]] for it, not the default lines. *)
Lemma parseFormation_unparseable :
  parseInt "abc" = NaN
  /\ parseFormation (Some "abc") = [Int 1; NaN]
  /\ parseFormation (Some "abc") <> [Int 1; Int 4; Int 3; Int 3].
Proof.
  split; [reflexivity|]. split; [reflexivity|]. discriminate.
Qed.

(** C9, amended. [parseFormation] returns 1 followed by [parseInt] of each
    ['-']-separated part of a non-empty string, so a string of runs of
    decimal digits joined by ['-'] yields 1 followed by the values of the
    runs, and ["4-2-3-1"] yields [[1,4,2,3,1]]; for a missing formation
    string ([null], [undefined] or empty) it returns the default
    [[1,4,3,3]]. No other string falls back to the default. *)
Theorem parseFormation_lines (parts : list (list nat))
    (Hparts : Forall isNumeral parts) (Hne : parts <> []) :
  parseFormation (Some (joinDash parts))
  = Int 1 :: map (fun ds => Int (digitsValue ds)) parts
  /\ parseFormation (Some "4-2-3-1") = [Int 1; Int 4; Int 2; Int 3; Int 1]
  /\ parseFormation None = [Int 1; Int 4; Int 3; Int 3]
  /\ parseFormation (Some EmptyString) = [Int 1; Int 4; Int 3; Int 3]
  /\ (forall str, str <> EmptyString ->
        parseFormation (Some str) = Int 1 :: map parseInt (split "-" str)).
Proof.
  split; [|split; [reflexivity|split; [reflexivity|split; [reflexivity|]]]].
  - unfold parseFormation.
    rewrite (joinDash_not_empty parts Hparts Hne).
    rewrite (split_joinDash parts Hparts Hne). f_equal.
    rewrite map_map. apply map_ext_Forall.
    eapply Forall_impl; [exact Hparts|]. intros ds Hds.
    now apply parseInt_numeral.
  - intros str Hstr. unfold parseFormation.
    destruct (String.eqb str EmptyString) eqn:E; [|reflexivity].
    now apply String.eqb_eq in E.
Qed.

Lemma parseFormation_lines_witness :
  Forall isNumeral [[4]; [3]; [3]]%nat /\ [[4]; [3]; [3]]%nat <> []
  /\ parseFormation (Some "4-3-3") = [Int 1; Int 4; Int 3; Int 3].
Proof.
  assert (H : Forall isNumeral [[4]; [3]; [3]]%nat).
  { repeat constructor; try discriminate; unfold isDigit; lia. }
  assert (Hne : [[4]; [3]; [3]]%nat <> []) by discriminate.
  split; [exact H|]. split; [exact Hne|].
  exact (proj1 (parseFormation_lines [[4]; [3]; [3]]%nat H Hne)).
Defined.

End ReconcilerFacts.

(** ** Proofs: score control *)

Module ScoreDraggableFacts.
Import ScoreDraggable.

Local Open Scope Z_scope.

Lemma clamp_range (n : Z) : 0 <= clamp n 0 9 <= 9.
Proof. unfold clamp. lia. Qed.

(** The source's [clamp] to the default bounds, case by case. *)
Lemma clamp_0_9 (n : Z) :
  clamp n 0 9 = if n <? 0 then 0 else if 9 <? n then 9 else n.
Proof.
  unfold clamp. destruct (Z.ltb_spec n 0), (Z.ltb_spec 9 n); lia.
Qed.

(** C10. Whatever the current value [v], every value the control passes to
    [onChange] is [v - 1] or [v + 1] brought into the range 0..9 (the value
    itself when it is in the range, 0 when it is below, 9 when it is above),
    hence an integer between 0 and 9: [ArrowUp] and the minus button pass
    the clamped [v - 1], [ArrowDown] and the plus button the clamped
    [v + 1]; the arrow keys emit at any time and the buttons while the
    control is open. *)
Theorem onChange_clamped (v : Z) (open : bool) (ev : Event)
    (open' : bool) (w : Z)
    (Hemit : handle (scoreProps v) open ev = (open', Some w)) :
  let into_0_9 (n : Z) := if n <? 0 then 0 else if 9 <? n then 9 else n in
  (w = into_0_9 (v - 1) \/ w = into_0_9 (v + 1))
  /\ 0 <= w <= 9
  /\ (ev = KeyDown "ArrowUp" \/ ev = ClickMinus -> w = into_0_9 (v - 1))
  /\ (ev = KeyDown "ArrowDown" \/ ev = ClickPlus -> w = into_0_9 (v + 1))
  /\ handle (scoreProps v) open (KeyDown "ArrowUp")
     = (open, Some (into_0_9 (v - 1)))
  /\ handle (scoreProps v) open (KeyDown "ArrowDown")
     = (open, Some (into_0_9 (v + 1)))
  /\ handle (scoreProps v) true ClickMinus = (true, Some (into_0_9 (v - 1)))
  /\ handle (scoreProps v) true ClickPlus = (true, Some (into_0_9 (v + 1))).
Proof.
  cbv beta zeta. rewrite <- !clamp_0_9.
  assert (Hup : handle (scoreProps v) open (KeyDown "ArrowUp")
                = (open, Some (clamp (v - 1) 0 9))) by reflexivity.
  assert (Hdown : handle (scoreProps v) open (KeyDown "ArrowDown")
                  = (open, Some (clamp (v + 1) 0 9))) by reflexivity.
  assert (Hw : w = clamp (v - 1) 0 9 \/ w = clamp (v + 1) 0 9).
  { unfold handle, scoreProps, minOf, maxOf in Hemit. cbn in Hemit.
    destruct ev as [key| | | |].
    - destruct (String.eqb key "ArrowUp"); [left; congruence|].
      destruct (String.eqb key "ArrowDown"); [right; congruence|].
      destruct (String.eqb key "Enter"); discriminate.
    - discriminate.
    - destruct open; [left; congruence | discriminate].
    - destruct open; [right; congruence | discriminate].
    - discriminate. }
  split; [exact Hw|]. split; [destruct Hw as [-> | ->]; apply clamp_range|].
  split; [|split].
  - intros [-> | ->].
    + rewrite Hup in Hemit. congruence.
    + destruct open; cbn in Hemit; congruence.
  - intros [-> | ->].
    + rewrite Hdown in Hemit. congruence.
    + destruct open; cbn in Hemit; congruence.
  - repeat split.
Qed.

Lemma onChange_clamped_witness :
  handle (scoreProps 12) true ClickPlus = (true, Some 9)
  /\ 0 <= 9 <= 9.
Proof.
  assert (H : handle (scoreProps 12) true ClickPlus = (true, Some 9))
    by reflexivity.
  split; [exact H|].
  exact (proj1 (proj2 (onChange_clamped 12 true ClickPlus true 9 H))).
Defined.

End ScoreDraggableFacts.

(** ** Further properties: pitch coordinates *)

Module PitchFacts.
Import Layout Overrides Session Drag Examples LayoutFacts OverridesFacts DragFacts.

Local Open Scope Q_scope.

Lemma clamp01_range (v : Q) : 0 <= clamp01 v <= 100.
Proof.
  unfold clamp01. split; [apply Q.le_max_l|].
  apply Q.max_lub; [lra | apply Q.le_min_l].
Qed.

Lemma clamp01_above (v : Q) : 100 <= v -> clamp01 v == 100.
Proof.
  intros H. unfold clamp01. rewrite (Q.min_l 100 v H). apply Q.max_r. lra.
Qed.

Lemma clamp01_compat (a b : Q) : a == b -> clamp01 a == clamp01 b.
Proof. intros E. unfold clamp01. now rewrite E. Qed.

#[local] Instance clamp01_proper : Proper (Qeq ==> Qeq) clamp01.
Proof. intros a b E. now apply clamp01_compat. Qed.

Lemma Qfloor_hundredths (k : Z) :
  Qfloor (inject_Z k / 100 * 100 + 1 / 2) = k.
Proof.
  assert (Hk : inject_Z k / 100 * 100 == inject_Z k) by field.
  pose proof (Qfloor_le (inject_Z k / 100 * 100 + 1 / 2)) as H1.
  pose proof (Qlt_floor (inject_Z k / 100 * 100 + 1 / 2)) as H2.
  rewrite inject_Z_plus in H2. change (inject_Z 1) with 1 in H2.
  generalize dependent (Qfloor (inject_Z k / 100 * 100 + 1 / 2)).
  generalize dependent (inject_Z k / 100 * 100).
  intros x Hk j H1 H2. change (1 / 2) with (1 # 2) in *.
  assert (Ha : inject_Z j < inject_Z (k + 1)).
  { rewrite inject_Z_plus. change (inject_Z 1) with 1. lra. }
  assert (Hb : inject_Z k < inject_Z (j + 1)).
  { rewrite inject_Z_plus. change (inject_Z 1) with 1. lra. }
  rewrite <- Zlt_Qlt in Ha, Hb. lia.
Qed.

(** [Math.round(v * 100) / 100] of a coordinate between 0 and 100 is again
    between 0 and 100, is within half a hundredth of [v], with a margin of
    [1e-9] for the rounding of the product and of the quotient, and rounding
    a second time changes nothing. *)
Theorem round2_two_decimals (v : Q) (Hv : 0 <= v <= 100) :
  0 <= round2 v <= 100
  /\ Qabs (round2 v - v) <= 1 / 200 + 1 / 1000000000
  /\ round2 (round2 v) == round2 v.
Proof.
  split; [|split].
  - unfold round2. split.
    + apply Qle_shift_div_l; [reflexivity|].
      assert (H : (0 <= Qfloor (v * 100 + 1 / 2))%Z).
      { change 0%Z with (Qfloor 0). apply Qfloor_resp_le.
        change (1 / 2) with (1 # 2). lra. }
      rewrite Zle_Qle in H. change (inject_Z 0) with 0 in H.
      generalize dependent (inject_Z (Qfloor (v * 100 + 1 / 2))).
      intros k Hk. lra.
    + apply Qle_shift_div_r; [reflexivity|].
      assert (H : (Qfloor (v * 100 + 1 / 2) <= 10000)%Z).
      { change 10000%Z with (Qfloor (10000 + 1 / 2)). apply Qfloor_resp_le.
        change (1 / 2) with (1 # 2). lra. }
      rewrite Zle_Qle in H. change (inject_Z 10000) with 10000 in H.
      generalize dependent (inject_Z (Qfloor (v * 100 + 1 / 2))).
      intros k Hk. lra.
  - apply Qabs_Qle_condition. unfold round2.
    pose proof (Qlt_floor (v * 100 + 1 / 2)) as Hlt.
    pose proof (Qfloor_le (v * 100 + 1 / 2)) as Hle.
    rewrite inject_Z_plus in Hlt. change (inject_Z 1) with 1 in Hlt.
    generalize dependent (Qfloor (v * 100 + 1 / 2)). intros k Hlt Hle.
    assert (E : inject_Z k / 100 == inject_Z k * (1 # 100)) by field.
    rewrite E. clear E.
    change (1 / 2) with (1 # 2) in *.
    change (1 / 200) with (1 # 200).
    change (1 / 1000000000) with (1 # 1000000000).
    split; lra.
  - unfold round2 at 1. unfold round2 at 1.
    rewrite Qfloor_hundredths. reflexivity.
Qed.

Lemma round2_two_decimals_witness :
  0 <= 33.333 <= 100 /\ round2 (round2 33.333) == round2 33.333.
Proof.
  assert (H : 0 <= 33.333 <= 100) by (split; discriminate).
  split; [exact H|].
  exact (proj2 (proj2 (round2_two_decimals 33.333 H))).
Defined.

(** The combined-vertical projection puts team A between 2 and 52 percent
    of the pitch height and team B between 48 and 98; team B's projection is
    team A's mirrored about the halfway line, to within [1e-9], with the same
    [x]; team A never inverts the order of two [y] coordinates and team B
    never keeps it, and two seats at least [1e-6] apart stay apart. *)
Theorem mapVertical_halves (p q : Position)
    (Hp : 0 <= py p <= 100) (Hq : 0 <= py q <= 100) :
  2 <= py (mapVerticalA p) <= 52
  /\ 48 <= py (mapVerticalB p) <= 98
  /\ Qabs (py (mapVerticalB p) - (100 - py (mapVerticalA p)))
     <= 1 / 1000000000
  /\ px (mapVerticalB p) == px (mapVerticalA p)
  /\ (py p <= py q ->
        py (mapVerticalA p) <= py (mapVerticalA q)
        /\ py (mapVerticalB q) <= py (mapVerticalB p))
  /\ (py p + 1 / 1000000 <= py q ->
        py (mapVerticalA p) < py (mapVerticalA q)
        /\ py (mapVerticalB q) < py (mapVerticalB p)).
Proof.
  unfold mapVerticalA, mapVerticalB. cbn [px py].
  assert (Ep : py p / 100 * 50 == py p * (1 # 2)) by field.
  assert (Eq : py q / 100 * 50 == py q * (1 # 2)) by field.
  assert (Ep' : (100 - py p) / 100 * 50 == 50 - py p * (1 # 2)) by field.
  assert (Eq' : (100 - py q) / 100 * 50 == 50 - py q * (1 # 2)) by field.
  rewrite Ep, Eq, Ep', Eq'.
  change (1 / 1000000000) with (1 # 1000000000).
  change (1 / 1000000) with (1 # 1000000).
  split; [lra|]. split; [lra|].
  split; [apply Qabs_Qle_condition; split; lra|].
  split; [reflexivity|].
  split; intros H; split; lra.
Qed.

Lemma mapVertical_halves_witness :
  (0 <= 90 <= 100) /\ 2 <= py (mapVerticalA (mkPosition 50 90)) <= 52.
Proof.
  assert (H : 0 <= 90 <= 100) by (split; discriminate).
  split; [exact H|].
  exact (proj1 (mapVertical_halves (mkPosition 50 90) (mkPosition 50 90) H H)).
Defined.

(** In combined-vertical mode the [y] a drag stores is between 0 and 100
    and [x] is stored as measured.  For team A a pointer in the upper half
    of the pitch stores twice its [y], to within [1e-9], and every pointer
    on or below the halfway line stores 100; for team B a pointer in the
    lower half stores twice its distance from the bottom edge, to within
    [1e-9], and every pointer on or above the halfway line stores 100. *)
Theorem dragStore_vertical_half (p : Position) (Hp : 0 <= py p <= 100) :
  (forall side, 0 <= py (dragStore side true p) <= 100
                /\ px (dragStore side true p) = px p)
  /\ (py p <= 50 ->
        Qabs (py (dragStore A true p) - 2 * py p) <= 1 / 1000000000)
  /\ (50 <= py p -> py (dragStore A true p) == 100)
  /\ (50 <= py p ->
        Qabs (py (dragStore B true p) - 2 * (100 - py p)) <= 1 / 1000000000)
  /\ (py p <= 50 -> py (dragStore B true p) == 100).
Proof.
  assert (Ea : py p / 50 * 100 == 2 * py p) by field.
  assert (Eb : (100 - py p) / 50 * 100 == 2 * (100 - py p)) by field.
  assert (Hzero : forall a b, a == b -> Qabs (a - b) <= 1 / 1000000000).
  { intros a b E. apply Qabs_Qle_condition.
    change (1 / 1000000000) with (1 # 1000000000). split; lra. }
  split; [|split; [|split; [|split]]].
  - intros side. destruct side; cbn [dragStore px py];
      (split; [apply clamp01_range | reflexivity]).
  - intros H. cbn [dragStore py]. apply Hzero.
    apply clamp01_within; [exact Ea | lra].
  - intros H. cbn [dragStore py]. rewrite (clamp01_compat _ _ Ea).
    apply clamp01_above. lra.
  - intros H. cbn [dragStore py]. apply Hzero.
    apply clamp01_within; [exact Eb | lra].
  - intros H. cbn [dragStore py]. rewrite (clamp01_compat _ _ Eb).
    apply clamp01_above. lra.
Qed.

Lemma dragStore_vertical_half_witness :
  (0 <= 70 <= 100) /\ py (dragStore A true (mkPosition 30 70)) == 100.
Proof.
  assert (H : 0 <= 70 <= 100) by (split; discriminate).
  split; [exact H|].
  apply (proj1 (proj2 (proj2 (dragStore_vertical_half (mkPosition 30 70) H)))).
  discriminate.
Defined.

Lemma dragging_eta side dr st :
  draggingRef (pointer side st) = Some dr ->
  st = dragging side dr (overrides (team side st)) st.
Proof.
  destruct st as [[] [] [] [] ? ? ? ? ? ? ? ? ?], side; cbn; intros ->;
    reflexivity.
Qed.

Lemma overrides_dragging side dr m st :
  overrides (team side (dragging side dr m st)) = m
  /\ overrides (team (other side) (dragging side dr m st))
     = overrides (team (other side) st).
Proof.
  destruct st as [[] [] [] [] ? ? ? ? ? ? ? ? ?], side; split; reflexivity.
Qed.

Lemma dragStore_range side vm (p : Position) :
  0 <= px p <= 100 -> 0 <= py p <= 100 ->
  0 <= px (dragStore side vm p) <= 100 /\ 0 <= py (dragStore side vm p) <= 100.
Proof.
  intros Hx Hy. destruct vm; [|now split].
  destruct side; cbn [dragStore px py]; (split; [exact Hx|]);
    apply clamp01_range.
Qed.

(** A move event while a seat is pressed, with a field element of non-zero
    size in place, leaves an override for that seat with both coordinates
    between 0 and 100, and changes no other override of either team. *)
Theorem onPointerMove_clamped (side : Side) (e : PointerEvent) (st : App)
    (dr : DragState) (rect : DOMRect)
    (Hdr : draggingRef (pointer side st) = Some dr)
    (Hfield : fieldOf side st = Some rect)
    (Hw : 0 < width rect) (Hh : 0 < height rect) :
  let st' := onPointerMove side e st in
  (exists p, overrides (team side st') !! index dr = Some p
             /\ 0 <= px p <= 100 /\ 0 <= py p <= 100)
  /\ (forall i, i <> index dr ->
        overrides (team side st') !! i = overrides (team side st) !! i)
  /\ overrides (team (other side) st') = overrides (team (other side) st).
Proof.
  intros st'. unfold st'.
  pose proof (onPointerMove_dragging side e dr (overrides (team side st))
                st rect Hfield) as E.
  rewrite <- (dragging_eta side dr st Hdr) in E. rewrite E. clear E.
  destruct (overrides_dragging side (noteMove dr e)
              (<[index dr :=
                   dragStore side (verticalMode st)
                     (percentOf rect (clientX e - pointerOffsetX dr)
                                     (clientY e - pointerOffsetY dr))]>
                 (overrides (team side st))) st) as [-> ->].
  split; [|split; [|reflexivity]].
  - eexists. split; [apply lookup_insert_eq|].
    apply dragStore_range; apply clamp01_range.
  - intros i Hi. now apply lookup_insert_ne.
Qed.

Lemma onPointerMove_clamped_witness :
  draggingRef (pointer A (onPointerDown A (pressAt 250 630) 0 initialApp))
  = Some (pressed 0 (pressAt 250 630))
  /\ exists p,
       overrides (team A (onPointerMove A (pressAt 900 (-40))
                           (onPointerDown A (pressAt 250 630) 0 initialApp)))
       !! 0%nat = Some p
       /\ 0 <= px p <= 100 /\ 0 <= py p <= 100.
Proof.
  split; [reflexivity|].
  exact (proj1 (onPointerMove_clamped A (pressAt 900 (-40))
                  (onPointerDown A (pressAt 250 630) 0 initialApp)
                  (pressed 0 (pressAt 250 630)) pitch
                  eq_refl eq_refl eq_refl eq_refl)).
Defined.

(** The override a move writes depends on the centre of the pressed card
    and on the displacement since the press, not on where the card was
    grabbed: it is the percentage of the point one displacement away from
    the card's centre. *)
Theorem storedAt_grab_point (side : Side) (vm : bool) (rect : DOMRect)
    (down e : PointerEvent) :
  let card := currentTarget down in
  let centre :=
    percentOf rect
      (left card + width card / 2 + (clientX e - clientX down))
      (top card + height card / 2 + (clientY e - clientY down)) in
  px (storedAt side vm rect down e) == px (dragStore side vm centre)
  /\ py (storedAt side vm rect down e) == py (dragStore side vm centre).
Proof.
  cbv zeta. unfold storedAt, pressed, percentOf. cbn [pointerOffsetX pointerOffsetY].
  assert (Ex : clientX e - (clientX down
                 - (left (currentTarget down) + width (currentTarget down) / 2))
               == left (currentTarget down) + width (currentTarget down) / 2
                  + (clientX e - clientX down)) by ring.
  assert (Ey : clientY e - (clientY down
                 - (top (currentTarget down) + height (currentTarget down) / 2))
               == top (currentTarget down) + height (currentTarget down) / 2
                  + (clientY e - clientY down)) by ring.
  destruct vm, side; cbn [dragStore px py]; split;
    rewrite ?Ex, ?Ey; reflexivity.
Qed.

(** *** Broadcast entries *)

Lemma length_omap_imap {X Y} (f : nat -> X -> option Y) (l : list X) :
  forall n,
    (forall i x, is_Some (f i x) <-> (i < n)%nat) ->
    length (omap id (imap f l)) = Nat.min (length l) n.
Proof.
  revert f. induction l as [|x l IH]; intros f n Hf; [reflexivity|].
  cbn [imap omap list_omap length].
  destruct n as [|n].
  - destruct (f 0%nat x) as [y|] eqn:E.
    + assert (H : is_Some (f 0%nat x)) by (rewrite E; eauto).
      apply Hf in H. lia.
    + cbn. rewrite (IH (f ∘ S) 0%nat).
      * now rewrite Nat.min_0_r.
      * intros i x'. cbn. rewrite Hf. lia.
  - destruct (f 0%nat x) as [y|] eqn:E.
    + cbn. f_equal. apply (IH (f ∘ S) n).
      intros i x'. cbn. rewrite Hf. lia.
    + assert (H : is_Some (f 0%nat x)) by (apply Hf; lia).
      rewrite E in H. now destruct H.
Qed.

Lemma broadcastSeat_is_Some side vm ov (positions : list Position) i player :
  is_Some (broadcastSeat side vm ov positions i player)
  <-> (i < length positions)%nat.
Proof.
  unfold broadcastSeat, effectivePosition.
  destruct (positions !! i) as [d|] eqn:E.
  - split; [intros _; now apply lookup_lt_Some in E | eauto].
  - split; [intros [? H]; discriminate H|].
    intros H. apply lookup_ge_None in E. lia.
Qed.

Lemma length_teamPositions side vm (t : Team) :
  length (teamPositions side vm t)
  = Nat.min (length (players t)) (length (calcPositions (formation t))).
Proof.
  unfold teamPositions. apply length_omap_imap. intros i x.
  apply broadcastSeat_is_Some.
Qed.

(** The broadcast lists one entry per player that has a seat: as many as
    the shorter of the roster and the formation's seat list, the first
    [n] players in roster order. *)
Theorem teamPositions_length (side : Side) (vm : bool) (t : Team) :
  length (teamPositions side vm t)
  = Nat.min (length (players t)) (length (calcPositions (formation t)))
  /\ (forall i seat, teamPositions side vm t !! i = Some seat ->
        exists player,
          players t !! i = Some player
          /\ seat_number seat = number player
          /\ seat_name seat = playerName player
          /\ seat_id seat = sideLetter side +:+ "-" +:+ pretty i).
Proof.
  split; [apply length_teamPositions|].
  intros i seat Hseat.
  assert (Hlt : (i < Nat.min (length (players t))
                           (length (calcPositions (formation t))))%nat).
  { apply lookup_lt_Some in Hseat. now rewrite length_teamPositions in Hseat. }
  destruct (lookup_lt_is_Some_2 (players t) i ltac:(lia)) as [player Hp].
  exists player. split; [exact Hp|].
  rewrite (teamPositions_lookup side vm t i player Hp ltac:(lia)) in Hseat.
  unfold broadcastSeat in Hseat.
  destruct (effectivePosition _ _ _); [|discriminate].
  injection Hseat as <-. repeat split.
Qed.

End PitchFacts.

(** ** Further properties: pointer tracks *)

Module PointerFacts.
Import Layout Overrides Session Drag Examples DragFacts.

(** The two teams' move handlers do not interfere: a move on a team A seat
    and a move on a team B seat give the same state in either order. *)
Theorem onPointerMove_sides_commute (eA eB : PointerEvent) (st : App) :
  onPointerMove A eA (onPointerMove B eB st)
  = onPointerMove B eB (onPointerMove A eA st).
Proof.
  destruct st as [[] [] [[drA|] ? ? ?] [[drB|] ? ? ?] [fr|] [frB|] ? ? [] ? ? ? ?];
    unfold onPointerMove, setDragging, setOverrides, toPercent; cbn;
    repeat match goal with
           | |- context [exceedsThreshold ?a ?b] =>
               destruct (exceedsThreshold a b)
           end;
    reflexivity.
Qed.

(** A press and release without a move, followed by the single-click timer
    firing, selects the seat and loads its player into the editor; both
    override maps and both rosters are as before. A second click on another
    seat before the timer fires replaces the pending click, so only the
    second seat is selected. *)
Theorem click_selects (side : Side) (idx idx2 : nat)
    (down down2 : PointerEvent) (st : App) :
  let clicked := fireSingleClick side (gesture side idx down [] st) in
  let twice :=
    fireSingleClick side
      (gesture side idx2 down2 [] (gesture side idx down [] st)) in
  selectedPlayer (pointer side clicked) = Some idx
  /\ editingPlayer (pointer side clicked) = players (team side st) !! idx
  /\ singleClickTimerRef (pointer side clicked) = None
  /\ teamA clicked = teamA st /\ teamB clicked = teamB st
  /\ selectedPlayer (pointer side twice) = Some idx2
  /\ fireSingleClick side twice = twice.
Proof.
  destruct st as [[] [] [] [] ? ? ? ? ? ? ? ? ?], side; cbn;
    repeat split; reflexivity.
Qed.

End PointerFacts.

(** ** Further properties: team swap and formation change *)

Module TeamFacts.
Import Layout Overrides Session Editors Examples LayoutFacts PitchFacts.

(** Swapping the teams twice restores the state. A swap exchanges
    formation, roster, name and overrides of the two teams but not the
    scores, the mode or the pointer tracks, so after a swap each score is
    broadcast with the other team. *)
Theorem handleSwapTeams_involutive (st : App) :
  handleSwapTeams (handleSwapTeams st) = st
  /\ scoreA (handleSwapTeams st) = scoreA st
  /\ scoreB (handleSwapTeams st) = scoreB st
  /\ verticalMode (handleSwapTeams st) = verticalMode st
  /\ pointerA (handleSwapTeams st) = pointerA st
  /\ pointerB (handleSwapTeams st) = pointerB st
  /\ b_teamA (currentArgs (handleSwapTeams st)) = teamB st
  /\ b_scoreA (currentArgs (handleSwapTeams st)) = scoreA st.
Proof.
  destruct st; repeat split; reflexivity.
Qed.

Lemma fold_addLines (ns : list nat) (acc : Z) :
  fold_left addLines (map (fun n => Int (Z.of_nat n)) ns) (Int acc)
  = Int (acc + Z.of_nat (sum_list ns)).
Proof.
  revert acc. induction ns as [|n ns IH]; intros acc; cbn.
  - f_equal. lia.
  - rewrite IH. f_equal. lia.
Qed.

Lemma loopCount_sumLines nm (ns : list nat) :
  loopCount (sumLines (lines (formationOf nm ns))) = sum_list ns.
Proof.
  unfold sumLines. cbn [lines formationOf]. rewrite fold_addLines.
  cbn [loopCount]. lia.
Qed.

Lemma pretty_N_go_length (x : N) :
  forall s, (String.length s <= String.length (pretty_N_go x s))%nat.
Proof.
  induction (N.lt_wf_0 x) as [x _ IH]. intros s.
  destruct (decide (x = 0%N)) as [->|Hx].
  - rewrite pretty_N_go_0. lia.
  - rewrite pretty_N_go_step by lia.
    etransitivity; [|apply IH; apply N.div_lt; lia]. cbn. lia.
Qed.

Lemma pretty_nat_nonempty (n : nat) : pretty n <> EmptyString.
Proof.
  unfold pretty, pretty_nat, pretty, pretty_N.
  destruct (decide (N.of_nat n = 0%N)) as [_|Hx]; [discriminate|].
  rewrite pretty_N_go_step by lia. intros H.
  pose proof (pretty_N_go_length (N.of_nat n `div` 10)
                (String (pretty_N_char (N.of_nat n `mod` 10)) EmptyString)) as Hl.
  rewrite H in Hl. cbn in Hl. lia.
Qed.

Lemma append_nonempty (a b : string) : a <> EmptyString -> a +:+ b <> EmptyString.
Proof. destruct a; [congruence | discriminate]. Qed.

Lemma defaultName_nonempty (i : nat) : defaultName i <> EmptyString.
Proof. unfold defaultName. apply append_nonempty. discriminate. Qed.

Lemma orString_nonempty (v fallback : string) :
  fallback <> EmptyString -> orString v fallback <> EmptyString.
Proof.
  intros Hf. unfold orString. destruct (String.eqb v EmptyString) eqn:E;
    [exact Hf|]. intros ->. discriminate E.
Qed.

Lemma orString_keeps (v fallback : string) :
  v <> EmptyString -> orString v fallback = v.
Proof.
  intros Hv. unfold orString. destruct (String.eqb v EmptyString) eqn:E;
    [|reflexivity]. now apply String.eqb_eq in E.
Qed.

(** A formation change makes the roster as long as the formation has seats,
    so every player is broadcast; a player keeps the number and name of the
    old player at the same index where these are non-empty and gets the
    defaults otherwise, never an empty number or name; cards and goals of the
    whole roster are dropped; the other team is untouched. *)
Theorem updatePlayersForFormation_roster (side : Side) (nm : string)
    (ns : list nat) (vm : bool) (st : App) :
  let f := formationOf nm ns in
  let st' := updatePlayersForFormation side f st in
  let roster := players (team side st') in
  length roster = sum_list ns
  /\ length roster = length (calcPositions f)
  /\ length (teamPositions side vm (team side st')) = sum_list ns
  /\ (forall i pl, roster !! i = Some pl ->
        yellowCard pl = None /\ redCard pl = None /\ goals pl = None
        /\ number pl <> EmptyString /\ playerName pl <> EmptyString
        /\ (forall old, players (team side st) !! i = Some old ->
              (number old <> EmptyString -> number pl = number old)
              /\ (playerName old <> EmptyString ->
                  playerName pl = playerName old))
        /\ (players (team side st) !! i = None ->
              number pl = pretty (i + 1)%nat /\ playerName pl = defaultName i))
  /\ formation (team side st') = f
  /\ teamName (team side st') = teamName (team side st)
  /\ team (other side) st' = team (other side) st.
Proof.
  intros f st' roster.
  assert (Hroster : roster
            = map (carriedPlayer (players (team side st)))
                  (seq 0 (sum_list ns))).
  { unfold roster, st', updatePlayersForFormation, f.
    rewrite loopCount_sumLines. destruct st, side; reflexivity. }
  assert (Hlen : length roster = sum_list ns).
  { rewrite Hroster. now rewrite length_map, length_seq. }
  assert (Hseats : length (calcPositions f) = sum_list ns).
  { unfold f. now rewrite length_calcPositions, loopCount_formationOf. }
  assert (Hform : formation (team side st') = f).
  { unfold st'. destruct st, side; reflexivity. }
  split; [exact Hlen|]. split; [congruence|].
  split.
  { rewrite (length_teamPositions side vm (team side st')).
    fold roster. rewrite Hform, Hlen, Hseats. apply Nat.min_id. }
  split.
  { intros i pl Hpl. rewrite Hroster in Hpl.
    change (map ?g ?l) with (g <$> l) in Hpl.
    rewrite list_lookup_fmap in Hpl.
    destruct (seq 0 (sum_list ns) !! i) as [j|] eqn:Ej; [|discriminate].
    apply lookup_seq in Ej as [-> _]. cbn in Hpl. injection Hpl as <-.
    unfold carriedPlayer. cbn [yellowCard redCard goals number playerName].
    repeat split.
    - destruct (players (team side st) !! i);
        [apply orString_nonempty|]; apply pretty_nat_nonempty.
    - destruct (players (team side st) !! i);
        [apply orString_nonempty|]; apply defaultName_nonempty.
    - rewrite H. now apply orString_keeps.
    - rewrite H. now apply orString_keeps.
    - now rewrite H.
    - now rewrite H. }
  split; [exact Hform|].
  split; unfold st'; destruct st, side; reflexivity.
Qed.

End TeamFacts.

(** ** Further properties: feed parsing and reconciliation *)

Module FeedFacts.
Import Layout Overrides Session Editors Reconciler CardLabel Examples.
Import LayoutFacts TeamFacts.

(** *** Splitting *)

Lemma split_nonempty sep s : split sep s <> [].
Proof.
  destruct s as [|c rest]; cbn; [discriminate|].
  destruct (Ascii.eqb c sep); [discriminate|].
  destruct (split sep rest); discriminate.
Qed.

Lemma concat_cons_nonempty sep x (l : list string) :
  l <> [] -> String.concat sep (x :: l) = x +:+ sep +:+ String.concat sep l.
Proof. destruct l; [congruence | reflexivity]. Qed.

Lemma split_concat (sep : ascii) (s : string) :
  String.concat (String sep EmptyString) (split sep s) = s.
Proof.
  induction s as [|c rest IH]; [reflexivity|]. cbn [split].
  destruct (Ascii.eqb c sep) eqn:E.
  - apply Ascii.eqb_eq in E as ->.
    rewrite concat_cons_nonempty by apply split_nonempty.
    rewrite IH. reflexivity.
  - pose proof (split_nonempty sep rest) as Hne.
    destruct (split sep rest) as [|part [|part' parts]]; [congruence| |].
    + cbn in *. now rewrite IH.
    + rewrite concat_cons_nonempty in * by discriminate.
      rewrite <- IH. reflexivity.
Qed.

Lemma length_split (sep : ascii) (s : string) :
  length (split sep s) = S (occurrences sep s).
Proof.
  induction s as [|c rest IH]; [reflexivity|]. cbn [split occurrences].
  destruct (Ascii.eqb c sep); [cbn; now rewrite IH|].
  pose proof (split_nonempty sep rest) as Hne.
  destruct (split sep rest) as [|part parts]; [congruence|]. exact IH.
Qed.

Lemma split_parts_without (sep : ascii) (s : string) :
  Forall (fun part => without sep part = true) (split sep s).
Proof.
  induction s as [|c rest IH]; [repeat constructor|]. cbn [split].
  destruct (Ascii.eqb c sep) eqn:E; [constructor; [reflexivity | exact IH]|].
  pose proof (split_nonempty sep rest) as Hne.
  destruct (split sep rest) as [|part parts]; [congruence|].
  inversion IH as [|? ? Hpart Hparts]; subst.
  constructor; [|exact Hparts]. cbn. now rewrite E, Hpart.
Qed.

(** [split] cuts at every separator and nowhere else: joining the parts
    with the separator gives the string back, there is one part more than
    there are separators, and no part contains the separator. *)
Theorem split_join (sep : ascii) (s : string) :
  String.concat (String sep EmptyString) (split sep s) = s
  /\ length (split sep s) = S (occurrences sep s)
  /\ Forall (fun part => without sep part = true) (split sep s).
Proof.
  split; [apply split_concat|]. split; [apply length_split|].
  apply split_parts_without.
Qed.

(** *** Line counts from the feed *)

Lemma digitValue_nonneg c d : digitValue c = Some d -> (0 <= d)%Z.
Proof.
  unfold digitValue. destruct (_ && _); [|discriminate].
  intros [= <-]. lia.
Qed.

Lemma parseDigits_nonneg s :
  forall acc v,
    parseDigits acc s = Some v ->
    (forall a, acc = Some a -> (0 <= a)%Z) -> (0 <= v)%Z.
Proof.
  induction s as [|c rest IH]; intros acc v Hp Hacc; cbn in Hp.
  - now apply Hacc.
  - destruct (digitValue c) as [d|] eqn:Ed; [|now apply Hacc].
    apply digitValue_nonneg in Ed.
    apply (IH _ _ Hp). intros a [= <-].
    destruct acc as [a0|]; cbn; [specialize (Hacc a0 eq_refl)|]; lia.
Qed.

Lemma trimStart_without c s :
  without c s = true -> without c (trimStart s) = true.
Proof.
  induction s as [|a rest IH]; [trivial|]. intros H. cbn [trimStart].
  destruct (isWhiteSpace a); [|exact H].
  cbn in H. apply andb_true_iff in H as [_ H]. now apply IH.
Qed.

Lemma parseInt_nonneg s z :
  without "-" s = true -> parseInt s = Int z -> (0 <= z)%Z.
Proof.
  intros Hw Hp. unfold parseInt in Hp.
  pose proof (trimStart_without "-" s Hw) as Ht.
  destruct (trimStart s) as [|c rest]; [discriminate|].
  cbn [without] in Ht. apply andb_true_iff in Ht as [Hc _].
  destruct c as [[] [] [] [] [] [] [] []]; try discriminate Hc;
    (match type of Hp with
     | context [parseDigits ?a ?t] =>
         destruct (parseDigits a t) as [v|] eqn:E
     end; [|discriminate Hp]; injection Hp as <-;
     apply parseDigits_nonneg in E; [lia | discriminate]).
Qed.

(** [parseFormation] never produces a negative line count: every entry is
    [NaN] or a non-negative integer, the first entry is the goalkeeper line
    1, and a non-empty string gives two entries more than it has dashes. *)
Theorem parseFormation_counts (formationStr : option string) :
  Forall (fun n => n = NaN \/ exists z, n = Int z /\ (0 <= z)%Z)
         (parseFormation formationStr)
  /\ head (parseFormation formationStr) = Some (Int 1)
  /\ (forall str, formationStr = Some str -> str <> EmptyString ->
        length (parseFormation formationStr) = (2 + occurrences "-" str)%nat).
Proof.
  assert (Hdefault :
    Forall (fun n => n = NaN \/ exists z, n = Int z /\ (0 <= z)%Z)
           [Int 1; Int 4; Int 3; Int 3]).
  { repeat (constructor; [right; eexists; split; [reflexivity | lia]|]).
    constructor. }
  destruct formationStr as [str|]; cbn [parseFormation].
  - destruct (String.eqb str EmptyString) eqn:E.
    + split; [exact Hdefault|]. split; [reflexivity|].
      intros s [= <-] Hs. now apply String.eqb_eq in E.
    + split; [|split; [reflexivity|]].
      * constructor; [right; exists 1%Z; split; [reflexivity | lia]|].
        pose proof (split_parts_without "-" str) as Hw.
        induction Hw as [|part parts Hpart Hparts IH]; cbn; constructor; auto.
        destruct (parseInt part) as [|z] eqn:Ep; [now left|].
        right. exists z. split; [reflexivity|].
        now apply (parseInt_nonneg part).
      * intros s [= <-] _. cbn. rewrite length_map.
        now rewrite length_split.
  - split; [exact Hdefault|]. split; [reflexivity|]. discriminate.
Qed.

(** *** Reconciled rosters *)

Lemma pretty_N_nonempty (x : N) : pretty x <> EmptyString.
Proof.
  unfold pretty, pretty_N.
  destruct (decide (x = 0%N)) as [_|Hx]; [discriminate|].
  rewrite pretty_N_go_step by lia. intros H.
  pose proof (pretty_N_go_length (x `div` 10)
                (String (pretty_N_char (x `mod` 10)) EmptyString)) as Hl.
  rewrite H in Hl. cbn in Hl. lia.
Qed.

Lemma pretty_Z_nonempty (z : Z) : pretty z <> EmptyString.
Proof.
  destruct z as [|p|p]; unfold pretty, pretty_Z.
  - discriminate.
  - apply pretty_N_nonempty.
  - apply append_nonempty. discriminate.
Qed.

Lemma length_filter_impl {X} (P Q : X -> Prop)
    `{!forall x, Decision (P x)} `{!forall x, Decision (Q x)} (l : list X) :
  (forall x, P x -> Q x) -> (length (filter P l) <= length (filter Q l))%nat.
Proof.
  intros HPQ. induction l as [|x l IH]; [reflexivity|].
  rewrite !filter_cons.
  destruct (decide (P x)) as [HP|HP]; destruct (decide (Q x)) as [HQ|HQ];
    cbn; try lia.
  exfalso. auto.
Qed.

(** The roster built from a lineup has one player per [startXI] entry, in
    order; no player has an empty number or name; card flags and goal count
    are always present; the goal count is at most the number of goal events
    that are not missed penalties; and without card events nobody is
    carded. *)
Theorem mapPlayersWithLog_roster (evs : list FeedEvent)
    (startXI : list FeedPlayer) :
  length (mapPlayersWithLog evs startXI) = length startXI
  /\ (forall i pl, mapPlayersWithLog evs startXI !! i = Some pl ->
        number pl <> EmptyString /\ playerName pl <> EmptyString
        /\ exists y r g,
             yellowCard pl = Some y /\ redCard pl = Some r
             /\ goals pl = Some g
             /\ (g <= length (filter (fun ev => ev_type ev = "Goal"
                                      /\ ev_detail ev <> "Missed Penalty")
                                     evs))%nat
             /\ (Forall (fun ev => ev_type ev <> "Card") evs ->
                 y = false /\ r = false)).
Proof.
  split; [apply length_imap|].
  intros i pl Hpl. unfold mapPlayersWithLog in Hpl.
  rewrite list_lookup_imap in Hpl.
  destruct (startXI !! i) as [p|]; [|discriminate].
  cbn in Hpl. injection Hpl as <-. unfold mapPlayer.
  cbn [number playerName yellowCard redCard goals].
  split; [|split].
  - destruct (fp_number p); [apply pretty_Z_nonempty|apply pretty_nat_nonempty].
  - destruct (fp_name p); [apply orString_nonempty|];
      apply defaultName_nonempty.
  - do 3 eexists. do 3 (split; [reflexivity|]). split.
    + apply length_filter_impl. intros ev Hev.
      apply ReconcilerFacts.isGoalOf_spec in Hev as (Ht & Hd & _). now split.
    + intros Hno.
      assert (Hcards : forall card,
                existsb (isCardOf card p) evs = false).
      { intros card. apply not_true_is_false. intros Hex.
        apply existsb_exists in Hex as (ev & Hin & Hev).
        rewrite Forall_forall in Hno.
        apply list_elem_of_In in Hin. specialize (Hno ev Hin).
        unfold isCardOf in Hev.
        apply andb_true_iff in Hev as [Hev _].
        apply andb_true_iff in Hev as [Hev _].
        now apply String.eqb_eq in Hev. }
      split; apply Hcards.
Qed.

(** *** From a lineup to seats *)

Lemma parseFormation_numerals (parts : list (list nat)) :
  Forall isNumeral parts -> parts <> [] ->
  parseFormation (Some (joinDash parts))
  = Int 1 :: map (fun ds => Int (digitsValue ds)) parts.
Proof.
  intros Hparts Hne. unfold parseFormation.
  rewrite (ReconcilerFacts.joinDash_not_empty parts Hparts Hne).
  rewrite (ReconcilerFacts.split_joinDash parts Hparts Hne). f_equal.
  rewrite map_map. apply map_ext_Forall.
  eapply Forall_impl; [exact Hparts|]. intros ds Hds.
  now apply ReconcilerFacts.parseInt_numeral.
Qed.

Lemma orString_joinDash (parts : list (list nat)) :
  Forall isNumeral parts -> parts <> [] ->
  orString (joinDash parts) "4-3-3" = joinDash parts.
Proof.
  intros Hparts Hne. unfold orString.
  now rewrite (ReconcilerFacts.joinDash_not_empty parts Hparts Hne).
Qed.

(** A lineup whose formation string is made of decimal numerals joined by
    dashes gets that string as formation name, one line more than the
    string has numerals, and one seat more than the numerals add up to; a
    lineup without a formation string gets the eleven seats of 4-3-3. *)
Theorem lineupFormation_seats (parts : list (list nat))
    (startXI : list FeedPlayer)
    (Hparts : Forall isNumeral parts) (Hne : parts <> []) :
  let f := lineupFormation (mkLineup (Some (joinDash parts)) startXI) in
  name f = joinDash parts
  /\ length (lines f) = S (length parts)
  /\ length (calcPositions f)
     = S (sum_list (map (fun ds => Z.to_nat (digitsValue ds)) parts))
  /\ length (calcPositions (lineupFormation (mkLineup None startXI)))
     = 11%nat.
Proof.
  cbv zeta. unfold lineupFormation. cbn [l_formation].
  rewrite (orString_joinDash parts Hparts Hne).
  rewrite (parseFormation_numerals parts Hparts Hne).
  split; [reflexivity|]. split; [cbn; now rewrite length_map|].
  split; [|reflexivity].
  rewrite length_calcPositions. cbn [lines map loopCount sum_list].
  rewrite map_map. reflexivity.
Qed.

Lemma lineupFormation_seats_witness :
  Forall isNumeral [[4]; [2]; [3]; [1]]%nat
  /\ [[4]; [2]; [3]; [1]]%nat <> []
  /\ length (calcPositions
               (lineupFormation (mkLineup (Some "4-2-3-1") [])))
     = 11%nat.
Proof.
  assert (H : Forall isNumeral [[4]; [2]; [3]; [1]]%nat).
  { repeat constructor; try discriminate; unfold isDigit; lia. }
  assert (Hne : [[4]; [2]; [3]; [1]]%nat <> []) by discriminate.
  split; [exact H|]. split; [exact Hne|].
  exact (proj1 (proj2 (proj2
           (lineupFormation_seats [[4]; [2]; [3]; [1]]%nat [] H Hne)))).
Defined.

(** *** What a load leaves alone *)

(** No load writes the pointer tracks, the field elements or the mode,
    whatever its closure captured, so a seat that is being dragged stays
    pressed.  When the fetch throws, finds no fixture or fewer than two
    lineups the state is unchanged, whoever asked; an auto-refresh tick keeps
    the fixture binding, and a successful user-initiated load binds the
    fixture and turns auto-refresh on. *)
Theorem loadMatchLineup_frame (fixtureId : Z) (homeTeam awayTeam : FeedTeam)
    (isAutoRefresh : bool) (closure : Closure) (fetched : FetchResult)
    (st : App) :
  let st' := loadMatchLineup fixtureId homeTeam awayTeam isAutoRefresh
                             closure fetched st in
  (pointerA st' = pointerA st /\ pointerB st' = pointerB st
   /\ fieldRef st' = fieldRef st /\ fieldRefB st' = fieldRefB st
   /\ verticalMode st' = verticalMode st)
  /\ (fetched = FetchFailed -> st' = st)
  /\ (forall ls, fetched = Fetched ls [] -> st' = st)
  /\ (forall ls fx, fetched = Fetched ls fx ->
        (length (default [] ls) < 2)%nat -> st' = st)
  /\ (isAutoRefresh = true ->
        selectedFixtureId st' = selectedFixtureId st
        /\ autoRefreshEnabled st' = autoRefreshEnabled st)
  /\ (forall home away rest fixture others,
        isAutoRefresh = false ->
        fetched = Fetched (Some (home :: away :: rest)) (fixture :: others) ->
        selectedFixtureId st' = Some fixtureId
        /\ autoRefreshEnabled st' = true).
Proof.
  intros st'. unfold st', loadMatchLineup.
  split; [|split; [|split; [|split; [|split]]]].
  - destruct fetched as [|[[|h [|a r]]|] [|fx o]], isAutoRefresh;
      repeat split; reflexivity.
  - intros ->. reflexivity.
  - intros ls ->. reflexivity.
  - intros ls fx -> Hlt.
    destruct fx as [|f o]; [reflexivity|].
    destruct ls as [[|h [|a r]]|]; cbn in Hlt; try reflexivity. lia.
  - intros ->.
    destruct fetched as [|[[|h [|a r]]|] [|fx o]]; split; reflexivity.
  - intros home away rest fixture others -> ->. split; reflexivity.
Qed.

Lemma loadMatchLineup_frame_witness :
  loadMatchLineup 12345 (mkFeedTeam "Home") (mkFeedTeam "Away") false
                  (closureOf initialApp) FetchFailed nudged = nudged.
Proof.
  exact (proj1 (proj2 (loadMatchLineup_frame 12345 (mkFeedTeam "Home")
                         (mkFeedTeam "Away") false (closureOf initialApp)
                         FetchFailed nudged))
           eq_refl).
Defined.

End FeedFacts.

(** ** Further properties: score control with custom bounds *)

Module ScoreFacts.
Import ScoreDraggable.

Local Open Scope Z_scope.

(** With any bounds [min <= max], a value passed to [onChange] lies within
    the bounds and the open flag is unchanged by the event that emits it;
    from a current value within the bounds the emitted value is the current
    value or one step away from it, so the control never wraps around; the
    two buttons emit nothing while the control is closed. *)
Theorem handle_within_bounds (p : Props) (open : bool) (ev : Event)
    (open' : bool) (w : Z)
    (Hbounds : minOf p <= maxOf p)
    (Hemit : handle p open ev = (open', Some w)) :
  minOf p <= w <= maxOf p
  /\ open' = open
  /\ (minOf p <= value p <= maxOf p ->
      w = value p - 1 \/ w = value p \/ w = value p + 1)
  /\ snd (handle p false ClickMinus) = None
  /\ snd (handle p false ClickPlus) = None.
Proof.
  assert (H : (w = clamp (value p - 1) (minOf p) (maxOf p)
               \/ w = clamp (value p + 1) (minOf p) (maxOf p))
              /\ open' = open).
  { unfold handle in Hemit. destruct ev as [key| | | |].
    - destruct (String.eqb key "ArrowUp"); [injection Hemit; auto|].
      destruct (String.eqb key "ArrowDown"); [injection Hemit; auto|].
      destruct (String.eqb key "Enter"); discriminate.
    - discriminate.
    - destruct open; [injection Hemit; auto | discriminate].
    - destruct open; [injection Hemit; auto | discriminate].
    - discriminate. }
  destruct H as [Hw ->]. unfold clamp in Hw.
  split; [lia|]. split; [reflexivity|]. split; [lia|]. split; reflexivity.
Qed.

Lemma handle_within_bounds_witness :
  minOf (mkProps 3 (Some 1) (Some 3)) <= maxOf (mkProps 3 (Some 1) (Some 3))
  /\ handle (mkProps 3 (Some 1) (Some 3)) true ClickPlus = (true, Some 3)
  /\ 1 <= 3 <= 3.
Proof.
  assert (Hb : minOf (mkProps 3 (Some 1) (Some 3))
               <= maxOf (mkProps 3 (Some 1) (Some 3))) by (cbn; lia).
  assert (He : handle (mkProps 3 (Some 1) (Some 3)) true ClickPlus
               = (true, Some 3)) by reflexivity.
  split; [exact Hb|]. split; [exact He|].
  exact (proj1 (handle_within_bounds (mkProps 3 (Some 1) (Some 3)) true
                  ClickPlus true 3 Hb He)).
Defined.

End ScoreFacts.

(** ** Further properties: edit dialog *)

Module EditDialogFacts.
Import Session EditDialog.

(** Each card button negates its own flag and leaves number, name and goals
    alone. Turning a card off clears the other card as well; turning a card
    on leaves the other card as it is, so pressing yellow and then red on a
    player without cards sets both flags. *)
Theorem card_toggles (p : Player) :
  (number (toggleYellow p) = number p
   /\ playerName (toggleYellow p) = playerName p
   /\ goals (toggleYellow p) = goals p
   /\ number (toggleRed p) = number p
   /\ playerName (toggleRed p) = playerName p
   /\ goals (toggleRed p) = goals p)
  /\ yellowCard (toggleYellow p) = Some (negb (flag (yellowCard p)))
  /\ redCard (toggleRed p) = Some (negb (flag (redCard p)))
  /\ (flag (yellowCard p) = true -> redCard (toggleYellow p) = Some false)
  /\ (flag (yellowCard p) = false -> redCard (toggleYellow p) = redCard p)
  /\ (flag (redCard p) = true -> yellowCard (toggleRed p) = Some false)
  /\ (flag (redCard p) = false -> yellowCard (toggleRed p) = yellowCard p)
  /\ (flag (yellowCard p) = false -> flag (redCard p) = false ->
      yellowCard (toggleRed (toggleYellow p)) = Some true
      /\ redCard (toggleRed (toggleYellow p)) = Some true).
Proof.
  destruct p as [n nm [[]|] [[]|] g]; cbn;
    repeat split; try reflexivity; intros; try discriminate; reflexivity.
Qed.

End EditDialogFacts.

(** ** Further properties: logo URLs *)

Module AssetsFacts.
Import Assets.

(** [convertLogoPathToURL] returns [null] exactly for a missing or empty
    path, otherwise an [http://] or [https://] URL, and converting an
    already converted path changes nothing. *)
Theorem convertLogoPathToURL_idempotent (logoPath : option string) :
  convertLogoPathToURL (convertLogoPathToURL logoPath)
  = convertLogoPathToURL logoPath
  /\ (convertLogoPathToURL logoPath = None
      <-> logoPath = None \/ logoPath = Some EmptyString)
  /\ (forall url, convertLogoPathToURL logoPath = Some url ->
        startsWith url "http://" = true \/ startsWith url "https://" = true).
Proof.
  destruct logoPath as [s|]; cbn [convertLogoPathToURL].
  2:{ split; [reflexivity|]. split; [tauto | discriminate]. }
  destruct (String.eqb s EmptyString) eqn:E.
  { apply String.eqb_eq in E as ->.
    split; [reflexivity|]. split; [tauto | discriminate]. }
  assert (Hne : Some s <> Some EmptyString).
  { intros [= ->]. discriminate E. }
  destruct (startsWith s "http://" || startsWith s "https://") eqn:Eh.
  { split; [|split].
    - cbn [convertLogoPathToURL]. now rewrite E, Eh.
    - split; [discriminate | intros [H|H]; [discriminate | contradiction]].
    - intros url [= <-]. now apply orb_true_iff in Eh. }
  destruct (startsWith s "./assets/");
    [|destruct (startsWith s "assets/");
      [|destruct (startsWith s "src/assets/");
        [|destruct (startsWith s "public/assets/")]]];
    (split; [reflexivity|]);
    (split; [split; [discriminate
                    | intros [H|H]; [discriminate | contradiction]]|]);
    intros url [= <-]; left; reflexivity.
Qed.

Lemma prefix_append (pre x : string) : String.prefix pre (pre +:+ x) = true.
Proof.
  induction pre as [|c pre IH]; [now destruct x|].
  change (String c pre +:+ x) with (String c (pre +:+ x)). cbn [String.prefix].
  destruct (ascii_dec c c); [exact IH | congruence].
Qed.

(** The four spellings of an asset path, [./assets/x], [assets/x],
    [src/assets/x] and [public/assets/x], are served from the same URL. *)
Theorem convertLogoPathToURL_asset_roots (x : string) :
  let url := Some (HTTP_SERVER_URL +:+ "/assets/" +:+ x) in
  convertLogoPathToURL (Some ("./assets/" +:+ x)) = url
  /\ convertLogoPathToURL (Some ("assets/" +:+ x)) = url
  /\ convertLogoPathToURL (Some ("src/assets/" +:+ x)) = url
  /\ convertLogoPathToURL (Some ("public/assets/" +:+ x)) = url.
Proof.
  cbv zeta. unfold convertLogoPathToURL, startsWith.
  repeat split;
    repeat match goal with
           | |- context [String.prefix ?pre (?pre +:+ x)] =>
               rewrite (prefix_append pre x)
           | |- context [String.prefix ?pre ?s] =>
               replace (String.prefix pre s) with false by reflexivity
           | |- context [String.eqb ?a ?b] =>
               replace (String.eqb a b) with false by reflexivity
           end;
    reflexivity.
Qed.

End AssetsFacts.

(** ** Further properties: snapshots *)

Module SnapshotFacts.
Import Session Snapshot.

(** Loading a snapshot taken from a session restores all fifteen fields,
    except that a session without a logo does not clear a logo that is
    currently set; a [null] snapshot and the empty object change nothing;
    applying the same snapshot twice is the same as applying it once. *)
Theorem applySnapshot_roundtrip (saved current : Fields) (data : option Data) :
  let restored := applySnapshot (Some (collectAppSnapshot saved)) current in
  restored
  = mkFields (s_formation saved) (s_players saved) (s_uniformColor saved)
             (s_overrides saved) (s_formationB saved) (s_playersB saved)
             (s_uniformColorB saved) (s_overridesB saved)
             (s_teamNameA saved)
             (match s_teamLogoA saved with
              | Some logo => Some logo
              | None => s_teamLogoA current
              end)
             (s_teamNameB saved)
             (match s_teamLogoB saved with
              | Some logo => Some logo
              | None => s_teamLogoB current
              end)
             (s_scoreA saved) (s_scoreB saved) (s_verticalMode saved)
  /\ (s_teamLogoA current = None -> s_teamLogoB current = None ->
      restored = saved)
  /\ (is_Some (s_teamLogoA saved) -> is_Some (s_teamLogoB saved) ->
      restored = saved)
  /\ applySnapshot None current = current
  /\ applySnapshot (Some emptyData) current = current
  /\ applySnapshot data (applySnapshot data current)
     = applySnapshot data current.
Proof.
  cbv zeta. split; [reflexivity|].
  split; [|split; [|split; [|split]]].
  - destruct saved, current. cbn. intros -> ->.
    repeat match goal with
           | |- context [match ?o with Some _ => _ | None => _ end] =>
               destruct o
           end; reflexivity.
  - destruct saved. cbn. intros [a ->] [b ->]. reflexivity.
  - reflexivity.
  - destruct current. reflexivity.
  - destruct data as [d|]; [|reflexivity].
    destruct d as [[] [] [] [] [] [] [] [] [] [] [] [] [] [] []];
      reflexivity.
Qed.

End SnapshotFacts.

(** ** Further properties: card labels *)

Module CardLabelFacts.
Import Reconciler CardLabel FeedFacts.

Lemma split_without (sep : ascii) (a : string) :
  without sep a = true -> split sep a = [a].
Proof.
  induction a as [|c a IH]; [reflexivity|]. cbn [without split].
  intros H. apply andb_true_iff in H as [Hc Ha].
  apply negb_true_iff in Hc. rewrite Hc, (IH Ha). reflexivity.
Qed.

Lemma split_without_app (sep : ascii) (a b : string) :
  without sep a = true ->
  split sep (a +:+ String sep b) = a :: split sep b.
Proof.
  induction a as [|c a IH].
  - intros _. change (EmptyString +:+ String sep b) with (String sep b).
    cbn [split]. now rewrite Ascii.eqb_refl.
  - cbn [without]. intros H. apply andb_true_iff in H as [Hc Ha].
    apply negb_true_iff in Hc.
    change (String c a +:+ String sep b) with (String c (a +:+ String sep b)).
    cbn [split]. rewrite Hc, (IH Ha). reflexivity.
Qed.

(** Every part is non-empty and free of spaces. *)
Lemma nameParts_parts (name : string) :
  Forall (fun part => part <> EmptyString /\ without " " part = true)
         (nameParts name).
Proof.
  unfold nameParts. pose proof (split_parts_without " " name) as Hw.
  induction Hw as [|part parts Hpart _ IH]; cbn; [constructor|].
  destruct (String.eqb part EmptyString) eqn:E; cbn; [exact IH|].
  constructor; [|exact IH]. split; [|exact Hpart].
  intros ->. discriminate E.
Qed.

Lemma last_Forall {X} (P : X -> Prop) (l : list X) (d : X) :
  P d -> Forall P l -> P (List.last l d).
Proof.
  intros Hd Hl. revert d Hd. induction Hl as [|x l Hx Hl IH]; intros d Hd;
    [exact Hd|].
  destruct l as [|y l]; [exact Hx|]. apply (IH d Hd).
Qed.

(** The label keeps at most two parts of a name: with more than two parts
    it is the first and the last part, and otherwise the name itself, so the
    first and the last part of the label are always those of the name. *)
Theorem displayName_parts (name : string) :
  nameParts (displayName name)
  = match nameParts name with
    | first :: (_ :: _ :: _) as rest => [first; List.last rest first]
    | parts => parts
    end
  /\ (length (nameParts (displayName name)) <= 2)%nat
  /\ ((length (nameParts name) <= 2)%nat -> displayName name = name).
Proof.
  pose proof (nameParts_parts name) as Hparts.
  unfold displayName.
  destruct (nameParts name) as [|first [|second [|third rest]]] eqn:E;
    cbn [length Nat.ltb Nat.leb].
  - rewrite E. repeat split; cbn; lia.
  - rewrite E. repeat split; cbn; lia.
  - rewrite E. repeat split; cbn; lia.
  - inversion Hparts as [|? ? [Hne Hw] Hrest]; subst.
    pose proof (last_Forall _ _ first (conj Hne Hw) Hrest) as [Hlne Hlw].
    set (lst := List.last (second :: third :: rest) first) in *.
    assert (Hnp : nameParts (first +:+ " " +:+ lst) = [first; lst]).
    { unfold nameParts.
      change (first +:+ " " +:+ lst) with (first +:+ String " " lst).
      rewrite (split_without_app " " first lst Hw), (split_without " " lst Hlw).
      cbn [List.filter].
      destruct (String.eqb first EmptyString) eqn:E1;
        [now apply String.eqb_eq in E1|].
      destruct (String.eqb lst EmptyString) eqn:E2;
        [now apply String.eqb_eq in E2|].
      reflexivity. }
    rewrite Hnp. split; [reflexivity|]. split; cbn; [lia|lia].
Qed.

End CardLabelFacts.

(** ** Further properties: match tabs *)

Module TabsFacts.
Import Tabs.

(** No fixture status is listed under two tabs. *)
Theorem tabs_disjoint (status : string) (t1 t2 : Tab)
    (H1 : shownInTab t1 status = true) (H2 : shownInTab t2 status = true) :
  t1 = t2.
Proof.
  destruct t1, t2; try reflexivity; exfalso; cbn in H1, H2;
    repeat match goal with
           | H : (_ || _) = true |- _ => apply orb_true_iff in H as [H|H]
           end;
    repeat match goal with
           | H : String.eqb status ?s = true |- _ =>
               apply String.eqb_eq in H; subst status
           end;
    discriminate.
Qed.

Lemma tabs_disjoint_witness :
  shownInTab LIVE "HT" = true /\ LIVE = LIVE.
Proof.
  split; [reflexivity|].
  exact (tabs_disjoint "HT" LIVE LIVE eq_refl eq_refl).
Defined.

End TabsFacts.

(** ** Further properties: seats on the pitch *)

Module SeatFacts.
Import Layout LayoutFacts Examples.

Local Open Scope Q_scope.

Lemma seatX_range (n k : nat) :
  (k < n)%nat -> (n <= 10)%nat ->
  9 # 10 <= seatX (Z.of_nat n) (Z.of_nat k) <= 991 # 10.
Proof.
  intros Hk Hn. rewrite seatX_formula.
  pose proof (inject_nat_nonneg k) as Hk0.
  assert (Hk1 : inject_Z (Z.of_nat k) + 1 <= inject_Z (Z.of_nat n)).
  { change 1 with (inject_Z 1). rewrite <- inject_Z_plus, <- Zle_Qle. lia. }
  assert (Hn1 : inject_Z (Z.of_nat n) <= 10).
  { change 10 with (inject_Z 10). rewrite <- Zle_Qle. lia. }
  set (q := inject_Z (Z.of_nat n)) in *.
  set (j := inject_Z (Z.of_nat k)) in *.
  assert (Hlo : (1 # 11) <= (q - j) / (q + 1)).
  { apply Qle_shift_div_l; lra. }
  assert (Hhi : (q - j) / (q + 1) <= (10 # 11)).
  { apply Qle_shift_div_r; lra. }
  generalize dependent ((q - j) / (q + 1)). intros r Hlo Hhi. lra.
Qed.

Lemma seatX_crowded (n : nat) :
  (12 <= n)%nat -> 100 < seatX (Z.of_nat n) 0.
Proof.
  intros Hn. change 0%Z with (Z.of_nat 0). rewrite seatX_formula.
  change (inject_Z (Z.of_nat 0)) with 0.
  assert (Hn1 : 12 <= inject_Z (Z.of_nat n)).
  { change 12 with (inject_Z 12). rewrite <- Zle_Qle. lia. }
  set (q := inject_Z (Z.of_nat n)) in *.
  assert (Hr : (11 # 12) < (q - 0) / (q + 1)).
  { apply Qlt_shift_div_l; lra. }
  generalize dependent ((q - 0) / (q + 1)). intros r Hr. lra.
Qed.

(** Where an index into a [forEach] of blocks comes from. *)
Lemma lookup_join_imap_inv {X Y} (f : nat -> X -> list Y) (n : X -> nat)
    (ls : list X) :
  forall i b,
    (forall j a, length (f j a) = n a) ->
    mjoin (imap f ls) !! i = Some b ->
    exists line a k,
      ls !! line = Some a /\ f line a !! k = Some b
      /\ i = (sum_list (map n (take line ls)) + k)%nat.
Proof.
  revert f. induction ls as [|c ls IH]; intros f i b Hf Hi; [discriminate|].
  cbn [imap mjoin list_join] in Hi.
  apply lookup_app_Some in Hi as [Hi | [Hge Hi]].
  - exists 0%nat, c, i. split; [reflexivity|]. split; [exact Hi|].
    reflexivity.
  - destruct (IH (f ∘ S) _ b (fun j a => Hf (S j) a) Hi)
      as (line & a & k & Hl & Hk & Heq).
    exists (S line), a, k. split; [exact Hl|]. split; [exact Hk|].
    cbn [take map]. rewrite Hf in Hge, Heq.
    change (sum_list (n c :: map n (take line ls)))
      with (n c + sum_list (map n (take line ls)))%nat. lia.
Qed.

(** Where a seat index of [calcPositions] comes from. *)
Lemma calcPositions_lookup_inv nm (ns : list nat) i p :
  calcPositions (formationOf nm ns) !! i = Some p ->
  exists line n k,
    ns !! line = Some n /\ (k < n)%nat
    /\ i = (lineStart ns line + k)%nat
    /\ p = mkPosition (seatX (Z.of_nat n) (Z.of_nat k))
                      (yForLine (length ns) line).
Proof.
  unfold calcPositions. intros H.
  apply (lookup_join_imap_inv _ loopCount) in H
    as (line & a & k & Ha & Hk & ->);
    [|intros j c; apply length_linePositions].
  cbn [lines formationOf] in Ha. change (map ?g ns) with (g <$> ns) in Ha.
  rewrite list_lookup_fmap in Ha.
  destruct (ns !! line) as [n|] eqn:En; [|discriminate].
  cbn in Ha. injection Ha as <-.
  assert (Hlt : (k < n)%nat).
  { apply lookup_lt_Some in Hk.
    rewrite length_linePositions in Hk. cbn [loopCount] in Hk. lia. }
  rewrite linePositions_lookup in Hk by exact Hlt. injection Hk as <-.
  exists line, n, k. split; [exact En|]. split; [exact Hlt|].
  split.
  - f_equal. unfold lineStart.
    change (map loopCount) with (fmap (M:=list) loopCount).
    rewrite fmap_take.
    exact (f_equal (fun l => sum_list (take line l))
                   (loopCount_formationOf nm ns)).
  - now rewrite length_map.
Qed.

(** With at most ten players in every line, each seat of a formation of
    two to eleven lines lies on the pitch with room to spare, [x] between
    0.9 and 99.1 and [y] between 10 and 90.  The formula puts the outer
    seats of an eleven-player line on the touchlines, and on the doubles the
    program computes the last of them, seat 11 of a formation [[1, 11]], is
    at [-7.1e-15], off the pitch; a line of twelve or more puts its first
    seat beyond [x = 100]. *)
Theorem calcPositions_on_pitch (nm : string) (ns : list nat)
    (Hlen : (2 <= length ns <= 11)%nat)
    (Hmax : Forall (fun n => (n <= 10)%nat) ns) :
  (forall p, p ∈ calcPositions (formationOf nm ns) ->
             9 # 10 <= px p <= 991 # 10 /\ 10 <= py p <= 90)
  /\ (exists d, Doubles.calcPositions [1; 11]%nat !! 11%nat = Some d
                 /\ Doubles.offPitch (Doubles.x d) = true)
  /\ (forall n, (12 <= n)%nat -> 100 < seatX (Z.of_nat n) 0).
Proof.
  split; [|split; [|apply seatX_crowded]].
  2:{ eexists. split; [reflexivity|]. vm_compute. reflexivity. }
  intros p Hp. split; [|apply (calcPositions_y_range nm ns); [lia | exact Hp]].
  apply list_elem_of_lookup in Hp as (i & Hi).
  apply calcPositions_lookup_inv in Hi as (line & n & k & Hn & Hk & _ & ->).
  cbn [px]. apply seatX_range; [exact Hk|].
  rewrite Forall_forall in Hmax. apply Hmax.
  apply list_elem_of_lookup. eauto.
Qed.

Lemma calcPositions_on_pitch_witness :
  (2 <= length [1; 4; 4; 2]%nat <= 11)%nat
  /\ Forall (fun n => (n <= 10)%nat) [1; 4; 4; 2]%nat
  /\ 100 < seatX 12 0.
Proof.
  assert (H : (2 <= length [1; 4; 4; 2]%nat <= 11)%nat) by (cbn; lia).
  assert (Hm : Forall (fun n => (n <= 10)%nat) [1; 4; 4; 2]%nat)
    by (repeat constructor; lia).
  split; [exact H|]. split; [exact Hm|].
  exact (proj2 (proj2 (calcPositions_on_pitch "4-4-2" [1; 4; 4; 2]%nat H Hm))
           12%nat ltac:(lia)).
Defined.

(** No two seats of a formation coincide: seats of different lines differ
    in [y] and seats of the same line differ in [x]. *)
Theorem calcPositions_distinct (nm : string) (ns : list nat) (i j : nat)
    (p q : Position)
    (Hp : calcPositions (formationOf nm ns) !! i = Some p)
    (Hq : calcPositions (formationOf nm ns) !! j = Some q)
    (Hij : i <> j) :
  ~ (px p == px q /\ py p == py q).
Proof.
  apply calcPositions_lookup_inv in Hp as (l1 & n1 & k1 & Hn1 & Hk1 & -> & ->).
  apply calcPositions_lookup_inv in Hq as (l2 & n2 & k2 & Hn2 & Hk2 & -> & ->).
  cbn [px py]. intros [Hx Hy].
  assert (Hlen : forall l n, ns !! l = Some n -> (l < length ns)%nat).
  { intros l n H. now apply lookup_lt_Some in H. }
  destruct (Nat.lt_trichotomy l1 l2) as [Hl | [-> | Hl]].
  - pose proof (yForLine_decreasing (length ns) l1 l2
                  ltac:(specialize (Hlen _ _ Hn2); lia) Hl). lra.
  - rewrite Hn1 in Hn2. injection Hn2 as <-.
    destruct (Nat.lt_trichotomy k1 k2) as [Hk | [-> | Hk]].
    + pose proof (seatX_decreasing n1 k1 k2 Hk). lra.
    + congruence.
    + pose proof (seatX_decreasing n1 k2 k1 Hk). lra.
  - pose proof (yForLine_decreasing (length ns) l2 l1
                  ltac:(specialize (Hlen _ _ Hn1); lia) Hl). lra.
Qed.

Lemma calcPositions_distinct_witness :
  calcPositions (formationOf "4-4-2" [1; 4; 4; 2]%nat) !! 1%nat
  = Some (mkPosition (seatX 4 0) (yForLine 4 1))
  /\ calcPositions (formationOf "4-4-2" [1; 4; 4; 2]%nat) !! 5%nat
     = Some (mkPosition (seatX 4 0) (yForLine 4 2))
  /\ ~ (px (mkPosition (seatX 4 0) (yForLine 4 1))
        == px (mkPosition (seatX 4 0) (yForLine 4 2))
        /\ py (mkPosition (seatX 4 0) (yForLine 4 1))
           == py (mkPosition (seatX 4 0) (yForLine 4 2))).
Proof.
  split; [reflexivity|]. split; [reflexivity|].
  exact (calcPositions_distinct "4-4-2" [1; 4; 4; 2]%nat 1 5 _ _
           eq_refl eq_refl ltac:(lia)).
Defined.

End SeatFacts.
